(** * missingno.utils: nullity_sort and nullity_filter

    A shallow embedding of [src/missingno/utils.py] and the properties of
    its two functions.  A pandas DataFrame is a record of row labels,
    column labels and a row-major grid of cells, a cell being [None] when
    the value is missing.  Exceptions are a [result], the warnings a call
    emits are the list returned next to it. *)

From Stdlib Require Import String ZArith QArith Lia.
From mathcomp Require Import boot.

Set Implicit Arguments.
Unset Strict Implicit.
Unset Printing Implicit Defensive.

Close Scope Q_scope.
Open Scope string_scope.
Open Scope nat_scope.
Open Scope seq_scope.

(** ** Python values the two functions exchange with their caller *)

Inductive exn : Type :=
| ValueError (msg : string)
| IndexError.

Inductive result (A : Type) : Type :=
| Ok (a : A)
| Raise (e : exn).

Arguments Ok {A} a.
Arguments Raise {A} e.

Inductive warning : Type :=
| DeprecationWarning (msg : string).

(** [x in [a, b]] on strings: Python compares with [==]. *)
Definition str_in (x : string) (l : seq string) : bool :=
  has (String.eqb x) l.

(** ** Positional selection *)

Section Gather.

Variable T : Type.

(** The elements of [s] at the positions [ps], in the order of [ps].  The
    callers check the positions against the axis length first. *)
Definition gather (s : seq T) (ps : seq nat) : seq T :=
  pmap (onth s) ps.

Definition in_range (n : nat) (ps : seq nat) : bool :=
  all (fun i => i < n) ps.

(** A boolean mask keeps the positions where it holds [true]. *)
Definition mask_positions (m : seq bool) : seq nat :=
  [seq j <- iota 0 (size m) | nth false m j].

End Gather.

(** ** DataFrame *)

Section Frame.

Variables (R C V : Type).

Record DataFrame : Type := mkDF {
  index : seq R;
  columns : seq C;
  values : seq (seq (option V))
}.

Definition nrows (df : DataFrame) : nat := size (index df).
Definition ncols (df : DataFrame) : nat := size (columns df).

(** A frame is rectangular: one row of cells per row label, one cell per
    column label in each row. *)
Definition wf (df : DataFrame) : bool :=
  (size (values df) == nrows df) &&
  all (fun r => size r == ncols df) (values df).

(** [df.count(axis="columns").values]: pandas reduces along the columns,
    which gives one count of non-missing cells per row. *)
Definition count_columns (df : DataFrame) : seq nat :=
  [seq count isSome (nth [::] (values df) i) | i <- iota 0 (nrows df)].

(** [df.count(axis="index").values]: pandas reduces along the rows, which
    gives one count of non-missing cells per column. *)
Definition count_index (df : DataFrame) : seq nat :=
  [seq count (fun r => isSome (nth None r j)) (values df)
  | j <- iota 0 (ncols df)].

(** The frame with its rows at positions [ps]. *)
Definition take_rows (df : DataFrame) (ps : seq nat) : DataFrame :=
  mkDF (gather (index df) ps) (columns df) (gather (values df) ps).

(** The frame with its columns at positions [ps]. *)
Definition take_cols (df : DataFrame) (ps : seq nat) : DataFrame :=
  mkDF (index df) (gather (columns df) ps)
       [seq gather r ps | r <- values df].

(** [df.iloc[ps, :]]: a position outside the rows raises. *)
Definition iloc_rows (df : DataFrame) (ps : seq nat) : result DataFrame :=
  if in_range (nrows df) ps then Ok (take_rows df ps) else Raise IndexError.

(** [df.iloc[:, ps]]: a position outside the columns raises. *)
Definition iloc_cols (df : DataFrame) (ps : seq nat) : result DataFrame :=
  if in_range (ncols df) ps then Ok (take_cols df ps) else Raise IndexError.

(** [df.iloc[:, m]] with a list of booleans: the mask has one entry per
    column, any other length raises. *)
Definition iloc_mask (df : DataFrame) (m : seq bool) : result DataFrame :=
  if size m == ncols df then Ok (take_cols df (mask_positions m))
  else Raise IndexError.

End Frame.

Arguments mkDF {R C V} index columns values.

(** The field [index] hides the position of an element in a sequence; it
    stays available under this name. *)
Abbreviation position := seq.index.

(** ** numpy *)

(** [numpy.argsort], library code outside the repository, taken by what
    numpy documents of it: the positions of the array, arranged so that the
    values read along them ascend.  The source calls it with the default
    kind of sort, which is not stable: the order among equal values is
    left open, and nothing below fixes it. *)
Class Argsort : Type := {
  argsort : seq nat -> seq nat;
  argsort_perm : forall c, perm_eq (argsort c) (iota 0 (size c));
  argsort_asc : forall c, sorted leq [seq nth 0 c i | i <- argsort c]
}.

(** One such arrangement: the stable sort, where equal values stay in the
    order of their positions. *)
Definition stable_argsort (c : seq nat) : seq nat :=
  sort (relpre (nth 0 c) leq) (iota 0 (size c)).

(** Order of the positions by count, and by position among equal counts:
    the order the stable sort arranges them in. *)
Definition lex_c (c : seq nat) : rel nat :=
  [rel i j | (nth 0 c i <= nth 0 c j)
             && ((nth 0 c j <= nth 0 c i) ==> (i < j))].

(** Another such arrangement: equal values in the reverse order of their
    positions. *)
Definition flipped_rel (c : seq nat) : rel nat :=
  [rel i j | (nth 0 c i < nth 0 c j)
             || ((nth 0 c i == nth 0 c j) && (j <= i))].

Definition flipped_argsort (c : seq nat) : seq nat :=
  sort (flipped_rel c) (iota 0 (size c)).

(** Both meet what numpy documents.  The stable one is the arrangement
    taken where a statement is run on a frame. *)
Definition stable_np : Argsort.
Proof.
apply: (@Build_Argsort stable_argsort) => c.
- by rewrite /stable_argsort perm_sort.
- by rewrite sorted_map; apply: sort_sorted => i j; exact: leq_total.
Defined.

Definition flipped_np : Argsort.
Proof.
apply: (@Build_Argsort flipped_argsort) => c.
- by rewrite /flipped_argsort perm_sort.
- rewrite sorted_map.
  have Htot : total (flipped_rel c).
    by move=> i j; rewrite /flipped_rel /=;
       case: (ltngtP (nth 0 c i) (nth 0 c j)) => //= _; exact: leq_total.
  apply: sub_sorted (sort_sorted Htot _) => i j; rewrite /flipped_rel /=.
  by case: (ltngtP (nth 0 c i) (nth 0 c j)).
Defined.

(** [numpy.flipud] on a one-dimensional array. *)
Definition flipud (ps : seq nat) : seq nat := rev ps.

(** [numpy.sort] on an array of positions. *)
Definition np_sort (ps : seq nat) : seq nat := sort leq ps.

(** A slice bound [k] of Python, on a sequence of length [len]: a negative
    bound counts from the end, and both ends clip. *)
Definition slice_bound (len : nat) (k : Z) : nat :=
  if (k <? 0)%Z then Z.to_nat (Z.max 0 (Z.of_nat len + k))
  else Z.to_nat (Z.min k (Z.of_nat len)).

(** [a[k:]] *)
Definition slice_from (T : Type) (s : seq T) (k : Z) : seq T :=
  drop (slice_bound (size s) k) s.

(** [a[:k]] *)
Definition slice_to (T : Type) (s : seq T) (k : Z) : seq T :=
  take (slice_bound (size s) k) s.

(** The numbers of [nullity_filter]: the threshold [p] and the quotients
    [count / len(df)] it is compared with.  The source computes them in
    float64; the functions below are all the code asks of them. *)
Class PyNumber (F : Type) : Type := {
  truthy : F -> bool;              (* [if p:] *)
  true_divide : nat -> nat -> F;   (* [count / len(df)] *)
  ge_num : F -> F -> bool;         (* [c >= p] *)
  le_num : F -> F -> bool          (* [c <= p] *)
}.

(** Exact rationals with the three special values of a float.  Dividing by
    a length of zero gives [nan] for a count of zero and [inf] otherwise;
    every comparison with [nan] is false, and [nan] is true as a
    condition. *)
Inductive pyfloat : Type :=
| Fin (q : Q)
| PInf
| NInf
| NaN.

Definition pyfloat_truthy (x : pyfloat) : bool :=
  if x is Fin q then ~~ Qeq_bool q 0 else true.

Definition pyfloat_div (c len : nat) : pyfloat :=
  match len, c with
  | 0, 0 => NaN
  | 0, _.+1 => PInf
  | _.+1, _ => Fin (Qmake (Z.of_nat c) (Pos.of_nat len))
  end.

Definition pyfloat_le (x y : pyfloat) : bool :=
  match x, y with
  | NaN, _ | _, NaN => false
  | NInf, _ | _, PInf => true
  | _, NInf | PInf, _ => false
  | Fin a, Fin b => Qle_bool a b
  end.

Definition pyfloat_ge (x y : pyfloat) : bool := pyfloat_le y x.

#[export] Instance pyfloat_number : PyNumber pyfloat :=
  {| truthy := pyfloat_truthy; true_divide := pyfloat_div;
     ge_num := pyfloat_ge; le_num := pyfloat_le |}.

(** ** The two functions of utils.py *)

Definition bind (A B : Type) (r : result A) (k : A -> result B) : result B :=
  match r with
  | Ok a => k a
  | Raise e => Raise e
  end.

(** The double quote, which the messages below put around names. *)
Definition dq : string :=
  String (Ascii.Ascii false true false false false true false false) EmptyString.

Definition quoted (s : string) : string := dq ++ s ++ dq.

Definition sort_msg : string :=
  "The " ++ quoted "sort" ++ " parameter must be set to "
  ++ quoted "ascending" ++ " or " ++ quoted "descending" ++ ".".

Definition axis_msg : string :=
  "The " ++ quoted "axis" ++ " parameter must be set to "
  ++ quoted "index" ++ " or " ++ quoted "columns" ++ ".".

Definition rows_msg : string :=
  "Using axis=" ++ quoted "rows"
  ++ " is deprecated and will be removed in a future release. Use axis="
  ++ quoted "index" ++ " instead.".

Section Functions.

Variables (R C V : Type).
Context {np : Argsort}.

Abbreviation frame := (DataFrame R C V).

Local Notation "x <- r ;; k" := (bind r (fun x => k))
  (at level 61, r at next level, right associativity).

(** What a call of [nullity_sort] returns: a frame, or the [None] of a
    function body that ends without a [return]. *)
Inductive retval : Type :=
| Frame (df : frame)
| NoneVal.

Definition returned (r : result frame) : result retval :=
  df <- r ;; Ok (Frame df).

(** [nullity_sort(df, sort, axis)]: the warnings emitted, in order, and the
    value returned or the exception raised. *)
Definition nullity_sort (df : frame) (sort : option string) (axis : string)
  : seq warning * result retval :=
  match sort with
  | None => ([::], Ok (Frame df))
  | Some sort =>
    if ~~ str_in sort [:: "ascending"; "descending"] then
      ([::], Raise (ValueError sort_msg))
    else
      let: (ws, axis) :=
        if (axis =? "rows")%string
        then ([:: DeprecationWarning rows_msg], "index")
        else ([::], axis) in
      if ~~ str_in axis [:: "index"; "columns"] then
        (ws, Raise (ValueError axis_msg))
      else if (axis =? "columns")%string then
        if (sort =? "ascending")%string then
          (ws, returned (iloc_rows df (argsort (count_columns df))))
        else if (sort =? "descending")%string then
          (ws, returned (iloc_rows df (flipud (argsort (count_columns df)))))
        else (ws, Ok NoneVal)
      else if (axis =? "index")%string then
        if (sort =? "ascending")%string then
          (ws, returned (iloc_cols df (argsort (count_index df))))
        else if (sort =? "descending")%string then
          (ws, returned (iloc_cols df (flipud (argsort (count_index df)))))
        else (ws, Ok NoneVal)
      else (ws, Ok NoneVal)
  end.

Context {F : Type} {num : PyNumber F}.

(** [df.count(axis="index").values / len(df)] *)
Definition completeness (df : frame) : seq F :=
  [seq true_divide c (nrows df) | c <- count_index df].

(** [filter == name], where [filter] may be [None]. *)
Definition is_mode (filter : option string) (name : string) : bool :=
  if filter is Some s then (s =? name)%string else false.

(** [nullity_filter(df, filter, p, n)] *)
Definition nullity_filter (df : frame) (filter : option string) (p : F) (n : Z)
  : result frame :=
  if is_mode filter "top" then
    df <- (if truthy p
           then iloc_mask df [seq ge_num c p | c <- completeness df]
           else Ok df) ;;
    if ~~ (n =? 0)%Z
    then iloc_cols df (np_sort (slice_from (argsort (count_index df)) (- n)))
    else Ok df
  else if is_mode filter "bottom" then
    df <- (if truthy p
           then iloc_mask df [seq le_num c p | c <- completeness df]
           else Ok df) ;;
    if ~~ (n =? 0)%Z
    then iloc_cols df (np_sort (slice_to (argsort (count_index df)) n))
    else Ok df
  else Ok df.

End Functions.

Arguments NoneVal {R C V}.

(** ** A frame to run the functions on

    Four rows, columns A (4 non-missing), B (2), C (1) and D (4). *)
Definition example_df : DataFrame nat string nat :=
  mkDF [:: 0; 1; 2; 3] [:: "A"; "B"; "C"; "D"]
       [:: [:: Some 1; Some 2; Some 3; Some 4];
           [:: Some 5; None; None; Some 6];
           [:: Some 7; Some 8; None; Some 9];
           [:: Some 10; None; None; Some 11]].

(** Three rows and three columns, no two rows and no two columns with the
    same count. *)
Definition distinct_df : DataFrame nat string nat :=
  mkDF [:: 0; 1; 2] [:: "X"; "Y"; "Z"]
       [:: [:: Some 1; None; None];
           [:: Some 2; Some 3; Some 4];
           [:: Some 5; None; Some 6]].

(** One row and four columns, A and B holding a cell, C and D none: the
    counts of the columns are 1, 1, 0 and 0. *)
Definition tied_df : DataFrame nat string nat :=
  mkDF [:: 0] [:: "A"; "B"; "C"; "D"]
       [:: [:: Some 1; Some 2; None; None]].

(** Three rows holding no, one and two cells. *)
Definition ascending_df : DataFrame nat string nat :=
  mkDF [:: 0; 1; 2] [:: "K"; "L"]
       [:: [:: None; None];
           [:: Some 1; None];
           [:: Some 2; Some 3]].

(** Two columns and no row. *)
Definition no_rows_df : DataFrame nat string nat :=
  mkDF [::] [:: "K"; "L"] [::].

(** ** Vocabulary of the statements *)

(** The two directions [nullity_sort] accepts, and the strings that name
    them at the call. *)
Inductive direction : Type := Ascending | Descending.

Definition dir_name (d : direction) : string :=
  match d with
  | Ascending => "ascending"
  | Descending => "descending"
  end.

(** The three axis arguments [nullity_sort] accepts. *)
Inductive axis_arg : Type := AxColumns | AxIndex | AxRows.

Definition axis_name (a : axis_arg) : string :=
  match a with
  | AxColumns => "columns"
  | AxIndex => "index"
  | AxRows => "rows"
  end.

(** The positions a direction arranges the counts [c] in. *)
Definition dir_perm {np : Argsort} (d : direction) (c : seq nat) : seq nat :=
  match d with
  | Ascending => argsort c
  | Descending => flipud (argsort c)
  end.

(** The order of the counts a direction asks for. *)
Definition dir_rel (d : direction) : rel nat :=
  match d with
  | Ascending => leq
  | Descending => geq
  end.

(** The direction is supplied and is none of the two names. *)
Definition direction_invalid (sort : option string) : Prop :=
  exists s, [/\ sort = Some s, s <> "ascending" & s <> "descending"].

(** The axis with the deprecated alias replaced. *)
Definition normalized (axis : string) : string :=
  if (axis =? "rows")%string then "index" else axis.

Definition axis_invalid (axis : string) : Prop :=
  normalized axis <> "index" /\ normalized axis <> "columns".

Section AxisVocabulary.

Variables (R C V : Type).
Context {np : Argsort}.
Implicit Types (df : DataFrame R C V).

(** What the code does along each axis argument: the counts it sorts by,
    how many positions there are, and the selection it applies. *)
Definition axis_counts df (a : axis_arg) : seq nat :=
  if a is AxColumns then count_columns df else count_index df.

Definition axis_len df (a : axis_arg) : nat :=
  if a is AxColumns then nrows df else ncols df.

Definition axis_take df (a : axis_arg) (ps : seq nat) : DataFrame R C V :=
  if a is AxColumns then take_rows df ps else take_cols df ps.

Definition axis_warnings (a : axis_arg) : seq warning :=
  if a is AxRows then [:: DeprecationWarning rows_msg] else [::].

(** The completeness ratio of column [j], as the code computes it. *)
Definition ratio {F : Type} {num : PyNumber F} df (j : nat) : F :=
  true_divide (nth 0 (count_index df) j) (nrows df).

(** The positions of the columns a test on the ratio keeps, in the order
    of the frame. *)
Definition columns_where {F : Type} {num : PyNumber F} df (test : F -> bool)
  : seq nat :=
  [seq j <- iota 0 (ncols df) | test (ratio df j)].

(** The columns the first step of [nullity_filter] keeps: those passing
    the test when [p] is not zero, all of them otherwise. *)
Definition kept {F : Type} {num : PyNumber F} df (p : F) (test : F -> bool)
  : seq nat :=
  if truthy p then columns_where df test else iota 0 (ncols df).

(** All the cells of a frame, row after row. *)
Definition cells df : seq (option V) := flatten (values df).

(** A call raised the error of an invalid argument. *)
Definition raises_ValueError (A : Type) (out : seq warning * result A) : Prop :=
  exists msg, out.2 = Raise (ValueError msg).

(** The outcome of a call of [nullity_sort] by the case its arguments
    fall in. *)
Variant sort_case df (sort : option string) (axis : string)
  : seq warning * result (retval R C V) -> Prop :=
| SortNone of sort = None :
    sort_case df sort axis ([::], Ok (Frame df))
| SortBadDirection s of sort = Some s & s <> "ascending" & s <> "descending" :
    sort_case df sort axis ([::], Raise (ValueError sort_msg))
| SortBadAxis d of sort = Some (dir_name d) & axis_invalid axis :
    sort_case df sort axis ([::], Raise (ValueError axis_msg))
| SortValid d a of sort = Some (dir_name d) & axis = axis_name a :
    sort_case df sort axis
      (axis_warnings a,
       Ok (Frame (axis_take df a (dir_perm d (axis_counts df a))))).

End AxisVocabulary.


(** * Properties *)

(** ** Positional selection *)

Section GatherLemmas.

Variable T : Type.
Implicit Types (s : seq T) (ps qs : seq nat).

Lemma in_rangeP n ps : reflect {in ps, forall i, i < n} (in_range n ps).
Proof. exact: allP. Qed.

Lemma gather_nth x0 s ps :
  in_range (size s) ps -> gather s ps = [seq nth x0 s i | i <- ps].
Proof.
elim: ps => [|i ps IH] //= /andP [Hi Hps].
rewrite /gather /= -/(gather s ps) (IH Hps).
have := onthTE s i; rewrite Hi.
case E: (onth s i) => [x|] //= _.
by rewrite (@onth_nth _ x0 x s i E).
Qed.

Lemma size_gather s ps : in_range (size s) ps -> size (gather s ps) = size ps.
Proof.
case: s => [|x0 s] H; last by rewrite (gather_nth x0 H) size_map.
by case: ps H.
Qed.

Lemma gather_cat s ps qs : gather s (ps ++ qs) = gather s ps ++ gather s qs.
Proof. exact: pmap_cat. Qed.

Lemma gather_rev s ps : gather s (rev ps) = rev (gather s ps).
Proof.
elim: ps => [|i ps IH] //.
rewrite rev_cons -cats1 gather_cat IH /gather /=.
by case: (onth s i) => [x|] /=; rewrite ?rev_cons ?cats1 ?cats0.
Qed.

Lemma gather_iota s : gather s (iota 0 (size s)) = s.
Proof.
case: s => [|x0 s] //.
have H : in_range (size (x0 :: s)) (iota 0 (size (x0 :: s))).
  by apply/in_rangeP => i; rewrite mem_iota.
by rewrite (gather_nth x0 H); exact: (mkseq_nth x0 (x0 :: s)).
Qed.

Lemma map_gather (U : Type) (f : T -> U) s ps :
  [seq f x | x <- gather s ps] = gather [seq f x | x <- s] ps.
Proof.
elim: ps => [|i ps IH] //.
rewrite /gather /= -/(gather s ps) -/(gather (map f s) ps) onth_map.
by case: (onth s i) => [x|] /=; rewrite IH.
Qed.

Lemma in_range_rev n ps : in_range n (rev ps) = in_range n ps.
Proof. exact: all_rev. Qed.

End GatherLemmas.

Lemma gather_gather (T : Type) (s : seq T) qs ps :
  in_range (size s) qs -> in_range (size qs) ps ->
  gather (gather s qs) ps = gather s (gather qs ps).
Proof.
move=> Hq Hp.
have Hqp : in_range (size s) (gather qs ps).
  rewrite (gather_nth 0 Hp); apply/in_rangeP => k /mapP [i Hi ->].
  by move/in_rangeP: Hq; apply; apply: mem_nth; move/in_rangeP: Hp; apply.
case: s Hq Hqp => [|x0 s] Hq Hqp.
  by case: qs Hq Hp {Hqp} => [|q qs] //= _; case: ps.
rewrite (gather_nth x0 Hqp) (gather_nth 0 Hp) (gather_nth x0 Hq).
rewrite (@gather_nth _ x0) ?size_map // -map_comp.
apply/eq_in_map => i Hi /=.
by rewrite (nth_map 0) //; move/in_rangeP: Hp; apply.
Qed.

Lemma gather_nat_nth (c : seq nat) ps :
  in_range (size c) ps -> gather c ps = [seq nth 0 c i | i <- ps].
Proof. exact: gather_nth. Qed.

Lemma perm_gather (T : eqType) (s : seq T) ps :
  perm_eq ps (iota 0 (size s)) -> perm_eq (gather s ps) s.
Proof.
move=> Hp.
have Hr : in_range (size s) ps.
  by apply/in_rangeP => i; rewrite (perm_mem Hp) mem_iota.
case: s Hp Hr => [|x0 s] Hp Hr.
  by move/perm_size: Hp; case: ps {Hr}.
rewrite (gather_nth x0 Hr) -[X in perm_eq _ X](mkseq_nth x0).
exact: perm_map.
Qed.

(** ** argsort *)

Section StableArgsort.

Variable c : seq nat.

Local Abbreviation le_c := (relpre (nth 0 c) leq).

Lemma le_c_total : total le_c.
Proof. by move=> i j; exact: leq_total. Qed.

Lemma le_c_trans : transitive le_c.
Proof. by move=> j i k; exact: leq_trans. Qed.

Lemma lex_cE i j :
  (lex_c c) i j =
  (nth 0 c i < nth 0 c j) || ((nth 0 c i == nth 0 c j) && (i < j)).
Proof.
rewrite /lex_c /=.
by case: (ltngtP (nth 0 c i) (nth 0 c j)).
Qed.

Lemma lex_c_trans : transitive (lex_c c).
Proof.
move=> j i k; rewrite !lex_cE.
case/orP => [Hij|/andP [/eqP Hij Hlt]]; case/orP => [Hjk|/andP [/eqP Hjk Hlt']].
- by rewrite (ltn_trans Hij Hjk).
- by rewrite -Hjk Hij.
- by rewrite Hij Hjk.
- by rewrite Hij Hjk eqxx (ltn_trans Hlt Hlt') orbT.
Qed.

Lemma lex_c_anti : antisymmetric (lex_c c).
Proof.
move=> i j; rewrite !lex_cE.
by case: (ltngtP (nth 0 c i) (nth 0 c j)) => //= _; case: (ltngtP i j).
Qed.

(** The stable sort puts the positions in the order [lex_c]. *)
Lemma stable_argsort_lex : sorted (lex_c c) (stable_argsort c).
Proof. exact: (sort_iota_stable le_c_total). Qed.

(** It is the one arrangement of the positions that ascends by count and,
    among equal counts, by position. *)
Lemma stable_argsort_unique ps :
  perm_eq ps (iota 0 (size c)) -> sorted (lex_c c) ps -> ps = stable_argsort c.
Proof.
move=> Hp Hs.
apply: (sorted_eq lex_c_trans lex_c_anti Hs stable_argsort_lex).
by rewrite (permPl Hp) perm_sym /stable_argsort perm_sort.
Qed.

End StableArgsort.

Section Argsort.

Context {np : Argsort}.
Variable c : seq nat.

Local Abbreviation le_c := (relpre (nth 0 c) leq).

Lemma size_argsort : size (argsort c) = size c.
Proof. by rewrite (perm_size (argsort_perm c)) size_iota. Qed.

Lemma perm_argsort : perm_eq (argsort c) (iota 0 (size c)).
Proof. exact: argsort_perm. Qed.

Lemma mem_argsort i : (i \in argsort c) = (i < size c).
Proof. by rewrite (perm_mem perm_argsort) mem_iota. Qed.

Lemma argsort_uniq : uniq (argsort c).
Proof. by rewrite (perm_uniq perm_argsort) iota_uniq. Qed.

Lemma in_range_argsort : in_range (size c) (argsort c).
Proof. by apply/in_rangeP => i; rewrite mem_argsort. Qed.

(** The counts read along the result ascend. *)
Lemma argsort_sorted : sorted le_c (argsort c).
Proof. by rewrite -sorted_map; exact: argsort_asc. Qed.

Lemma gather_argsort : gather c (argsort c) = sort leq c.
Proof.
rewrite (gather_nat_nth in_range_argsort).
apply: (sorted_eq leq_trans anti_leq (argsort_asc c) (sort_sorted leq_total c)).
rewrite perm_sym perm_sort perm_sym -[X in perm_eq _ X](mkseq_nth 0 c).
by apply: perm_map; exact: argsort_perm.
Qed.

(** When no two counts are equal the arrangement is forced: every argsort
    returns what the stable sort returns. *)
Lemma argsort_forced : uniq c -> argsort c = stable_argsort c.
Proof.
move=> Hu; apply: stable_argsort_unique; first exact: argsort_perm.
rewrite (sorted_pairwise (@lex_c_trans c)).
have : pairwise [rel i j | le_c i j && (i != j)] (argsort c).
  by rewrite pairwise_relI -(sorted_pairwise (@le_c_trans c)) argsort_sorted
             -uniq_pairwise argsort_uniq.
apply: sub_in_pairwise in_range_argsort => i j /= Hi Hj /andP [Hle Hne].
rewrite lex_cE ltn_neqAle Hle andbT.
by rewrite (nth_uniq 0 Hi Hj Hu) Hne.
Qed.

End Argsort.

(** Counts that strictly ascend are left where they are. *)
Lemma argsort_sorted_id {np : Argsort} c :
  sorted ltn c -> argsort c = iota 0 (size c).
Proof.
rewrite ltn_sorted_uniq_leq => /andP [Hu Hc].
rewrite (argsort_forced Hu) /stable_argsort.
apply: sorted_sort; first exact: le_c_trans.
by rewrite -sorted_map; have -> : map (nth 0 c) (iota 0 (size c)) = c
  by exact: mkseq_nth.
Qed.

(** Counts that strictly descend are reversed. *)
Lemma argsort_rev_sorted {np : Argsort} c :
  sorted gtn c -> argsort c = rev (iota 0 (size c)).
Proof.
move=> Hc.
have Hu : uniq c by move: Hc; rewrite gtn_sorted_uniq_geq => /andP [].
rewrite (argsort_forced Hu); apply/esym/stable_argsort_unique.
  by rewrite perm_rev.
rewrite rev_sorted.
have Htr : transitive (fun j i : nat => lex_c c i j).
  by move=> j i k H1 H2; exact: (lex_c_trans H2 H1).
rewrite (sorted_pairwise Htr).
apply/(pairwiseP 0) => i j; rewrite !inE size_iota => Hi Hj Hij.
rewrite !nth_iota // !add0n /=.
have Hlt : nth 0 c j < nth 0 c i.
  have Hg : transitive gtn by move=> y x z H1 H2; exact: ltn_trans H2 H1.
  exact: (sorted_ltn_nth Hg 0 Hc).
by rewrite lex_cE Hlt.
Qed.

(** ** Frames under positional selection *)

Lemma map_nth_positions (T : Type) (f : nat -> T) ps :
  [seq f (nth 0 ps i) | i <- iota 0 (size ps)] = [seq f k | k <- ps].
Proof.
by rewrite (map_comp f (nth 0 ps)); congr (map f _); exact: mkseq_nth.
Qed.

Lemma gather_mkseq (T : Type) (f : nat -> T) n ps :
  in_range n ps -> gather [seq f i | i <- iota 0 n] ps = [seq f k | k <- ps].
Proof.
move=> Hr; case: n Hr => [|n] Hr.
  by case: ps Hr.
have Hr' : in_range (size [seq f i | i <- iota 0 n.+1]) ps.
  by rewrite size_map size_iota.
rewrite (gather_nth (f 0) Hr'); apply/eq_in_map => k Hk.
move/in_rangeP: Hr => /(_ k Hk) Hlt.
by rewrite (nth_map 0) ?size_iota // nth_iota.
Qed.

Lemma eq_count_all (T : Type) (P a1 a2 : pred T) (s : seq T) :
  all P s -> (forall x, P x -> a1 x = a2 x) -> count a1 s = count a2 s.
Proof.
move=> Hs H; elim: s Hs => [|x s IH] //= /andP [Hx Hs].
by rewrite (H x Hx) (IH Hs).
Qed.

Lemma eq_map_all (T U : Type) (P : pred T) (f g : T -> U) (s : seq T) :
  all P s -> (forall x, P x -> f x = g x) -> map f s = map g s.
Proof.
move=> Hs H; elim: s Hs => [|x s IH] //= /andP [Hx Hs].
by rewrite (H x Hx) (IH Hs).
Qed.

Section FrameLemmas.

Variables (R C V : Type).
Implicit Types (df : DataFrame R C V) (ps qs : seq nat).

Lemma wf_size_values df : wf df -> size (values df) = nrows df.
Proof. by case/andP => /eqP. Qed.

Lemma wf_rows df : wf df -> all (fun r => size r == ncols df) (values df).
Proof. by case/andP. Qed.

Lemma size_count_columns df : size (count_columns df) = nrows df.
Proof. by rewrite size_map size_iota. Qed.

Lemma size_count_index df : size (count_index df) = ncols df.
Proof. by rewrite size_map size_iota. Qed.

Lemma nrows_take_rows df ps :
  in_range (nrows df) ps -> nrows (take_rows df ps) = size ps.
Proof. exact: size_gather. Qed.

Lemma ncols_take_cols df ps :
  in_range (ncols df) ps -> ncols (take_cols df ps) = size ps.
Proof. exact: size_gather. Qed.

Lemma wf_take_rows df ps :
  wf df -> in_range (nrows df) ps -> wf (take_rows df ps).
Proof.
move=> Hwf Hr; rewrite /wf /= (nrows_take_rows Hr).
rewrite -(wf_size_values Hwf) in Hr.
rewrite (size_gather Hr) eqxx /= (gather_nth [::] Hr) all_map.
apply/(all_nthP 0) => i Hi /=.
by move/all_nthP: (wf_rows Hwf); apply; move/in_rangeP: Hr; apply; exact: mem_nth.
Qed.

Lemma wf_take_cols df ps :
  wf df -> in_range (ncols df) ps -> wf (take_cols df ps).
Proof.
move=> Hwf Hr; rewrite /wf /= size_map (wf_size_values Hwf) eqxx /=.
rewrite (ncols_take_cols Hr) all_map.
apply: sub_all (wf_rows Hwf) => r /= /eqP Hs.
by rewrite size_gather ?Hs.
Qed.

Lemma count_columns_take_rows df ps :
  wf df -> in_range (nrows df) ps ->
  count_columns (take_rows df ps) = gather (count_columns df) ps.
Proof.
move=> Hwf Hr; rewrite [RHS]gather_mkseq //.
rewrite /count_columns (nrows_take_rows Hr) /=.
rewrite -(wf_size_values Hwf) in Hr.
rewrite (gather_nth [::] Hr).
rewrite -(map_nth_positions (fun k => count isSome (nth [::] (values df) k))).
by apply/eq_in_map => i; rewrite mem_iota /= add0n => Hi; rewrite (nth_map 0).
Qed.

Lemma count_index_take_cols df ps :
  wf df -> in_range (ncols df) ps ->
  count_index (take_cols df ps) = gather (count_index df) ps.
Proof.
move=> Hwf Hr; rewrite [RHS]gather_mkseq //.
rewrite /count_index (ncols_take_cols Hr) /=.
rewrite -(map_nth_positions
            (fun k => count (fun r => isSome (nth None r k)) (values df))).
apply/eq_in_map => j; rewrite mem_iota /= add0n => Hj.
rewrite count_map; apply: eq_count_all (wf_rows Hwf) _ => r /= /eqP Hs.
by rewrite (@gather_nth _ None) ?Hs // (nth_map 0).
Qed.

Lemma take_rows_take_rows df ps qs :
  wf df -> in_range (nrows df) ps -> in_range (size ps) qs ->
  take_rows (take_rows df ps) qs = take_rows df (gather ps qs).
Proof.
move=> Hwf Hp Hq; rewrite /take_rows /=.
rewrite gather_gather // gather_gather //.
by rewrite (wf_size_values Hwf).
Qed.

Lemma take_cols_take_cols df ps qs :
  wf df -> in_range (ncols df) ps -> in_range (size ps) qs ->
  take_cols (take_cols df ps) qs = take_cols df (gather ps qs).
Proof.
move=> Hwf Hp Hq; rewrite /take_cols /=.
rewrite gather_gather // -map_comp; congr (mkDF _ _ _).
apply: eq_map_all (wf_rows Hwf) _ => r /= /eqP Hs.
by rewrite gather_gather ?Hs.
Qed.

Lemma take_rows_iota df :
  wf df -> take_rows df (iota 0 (nrows df)) = df.
Proof.
move=> Hwf; case: df Hwf => ix cs vs Hwf; rewrite /take_rows /nrows /=.
by rewrite gather_iota -[size ix](wf_size_values Hwf) /= gather_iota.
Qed.

Lemma take_cols_iota df :
  wf df -> take_cols df (iota 0 (ncols df)) = df.
Proof.
move=> Hwf; case: df Hwf => ix cs vs Hwf; rewrite /take_cols /ncols /=.
rewrite gather_iota; congr (mkDF _ _ _).
rewrite -[RHS]map_id; apply: eq_map_all (wf_rows Hwf) _ => r /eqP.
by rewrite /ncols /= => <-; exact: gather_iota.
Qed.

End FrameLemmas.

(** ** nullity_sort *)

Section SortLemmas.

Context {np : Argsort}.

Variables (R C V : Type).
Implicit Types (df : DataFrame R C V) (d : direction) (a : axis_arg).

Lemma size_axis_counts df a : size (axis_counts df a) = axis_len df a.
Proof. by case: a; rewrite /= ?size_count_columns ?size_count_index. Qed.

Lemma perm_dir_perm d c : perm_eq (dir_perm d c) (iota 0 (size c)).
Proof.
by case: d; rewrite /= /flipud ?perm_rev; exact: perm_argsort.
Qed.

Lemma in_range_dir_perm d c : in_range (size c) (dir_perm d c).
Proof.
by apply/in_rangeP => i; rewrite (perm_mem (perm_dir_perm d c)) mem_iota.
Qed.

Lemma size_dir_perm d c : size (dir_perm d c) = size c.
Proof. by rewrite (perm_size (perm_dir_perm d c)) size_iota. Qed.

(** The counts read along the arrangement are in the order asked for. *)
Lemma dir_perm_sorted d c :
  sorted (dir_rel d) [seq nth 0 c i | i <- dir_perm d c].
Proof.
have Hasc : sorted leq [seq nth 0 c i | i <- argsort c].
  by rewrite sorted_map; exact: argsort_sorted.
by case: d => //=; rewrite /flipud map_rev rev_sorted.
Qed.

(** What a call with a valid direction and axis computes. *)
Lemma nullity_sort_valid df d a :
  nullity_sort df (Some (dir_name d)) (axis_name a) =
  (axis_warnings a,
   Ok (Frame (axis_take df a (dir_perm d (axis_counts df a))))).
Proof.
have Hr := in_range_dir_perm d (count_columns df).
have Hc := in_range_dir_perm d (count_index df).
rewrite size_count_columns in Hr; rewrite size_count_index in Hc.
by case: d Hr Hc; case: a => /= Hr Hc;
   rewrite /nullity_sort /= /iloc_rows /iloc_cols ?Hr ?Hc.
Qed.

End SortLemmas.

Lemma str_in2 x a b : str_in x [:: a; b] = (x =? a)%string || (x =? b)%string.
Proof. by rewrite /str_in /= orbF. Qed.

Section SortArguments.

Context {np : Argsort}.

Variables (R C V : Type).
Implicit Types (df : DataFrame R C V).

Lemma direction_cases (s : string) :
  (exists d, s = dir_name d) \/ (s <> "ascending" /\ s <> "descending").
Proof.
case: (String.eqb_spec s "ascending") => [->|Ha]; first by left; exists Ascending.
case: (String.eqb_spec s "descending") => [->|Hd]; first by left; exists Descending.
by right.
Qed.

Lemma axis_cases (axis : string) :
  (exists a, axis = axis_name a) \/
  [/\ axis <> "rows", axis <> "index" & axis <> "columns"].
Proof.
case: (String.eqb_spec axis "rows") => [->|Hr]; first by left; exists AxRows.
case: (String.eqb_spec axis "index") => [->|Hi]; first by left; exists AxIndex.
case: (String.eqb_spec axis "columns") => [->|Hc]; first by left; exists AxColumns.
by right.
Qed.

Lemma nullity_sortP df sort axis :
  sort_case df sort axis (nullity_sort df sort axis).
Proof.
case: sort => [s|]; last exact: SortNone.
case: (direction_cases s) => [[d ->]|[Ha Hd]]; last first.
  rewrite /nullity_sort str_in2.
  move/String.eqb_neq: (Ha) => ->; move/String.eqb_neq: (Hd) => -> /=.
  exact: (SortBadDirection _ _ (erefl _)).
case: (axis_cases axis) => [[a ->]|[Hr Hi Hc]].
  by rewrite nullity_sort_valid; exact: SortValid.
have Hbad : axis_invalid axis.
  by rewrite /axis_invalid /normalized; move/String.eqb_neq: (Hr) => ->.
have -> : nullity_sort df (Some (dir_name d)) axis =
          ([::], Raise (ValueError axis_msg)).
  rewrite /nullity_sort str_in2.
  have -> /= : (dir_name d =? "ascending")%string
               || (dir_name d =? "descending")%string by case: d.
  move/String.eqb_neq: (Hr) => ->.
  by move/String.eqb_neq: (Hi) => ->; move/String.eqb_neq: (Hc) => ->.
exact: (SortBadAxis df (erefl (Some (dir_name d))) Hbad).
Qed.

End SortArguments.

(** * The claims *)

Section SortClaims.

Context {np : Argsort}.

Variables (R C V : Type).
Implicit Types (df : DataFrame R C V).

(** C5. [nullity_sort] with the direction left at [None] returns the frame
    it was given whatever the axis, and [nullity_filter] with the filter
    left at [None] returns the frame it was given whatever [p] and [n]. *)
Theorem identity_when_unspecified df :
  (forall axis : string,
     (nullity_sort df None axis).2 = Ok (Frame df)) /\
  (forall (F : Type) (num : PyNumber F) (p : F) (n : Z),
     nullity_filter df None p n = Ok df).
Proof. by []. Qed.

(** C10. With the direction at [None] the frame is returned before the axis
    is looked at: no warning is emitted, also for the axis "rows", and
    nothing is raised, also for an axis that is no axis. *)
Theorem sort_none_skips_axis df (axis : string) :
  [/\ (nullity_sort df None axis).1 = [::],
      (nullity_sort df None "rows").1 = [::],
      (forall e, (nullity_sort df None axis).2 <> Raise e) &
      nullity_sort df None axis = ([::], Ok (Frame df))].
Proof. by []. Qed.

(** C4, amended.  [nullity_sort] raises the error of an invalid argument
    exactly when a direction is supplied and either the direction is none
    of the two names or the axis, after the alias "rows" is replaced, is
    none of "index" and "columns"; and it raises nothing else. *)
Theorem sort_raises_iff df (sort : option string) (axis : string) :
  (raises_ValueError (nullity_sort df sort axis) <->
   direction_invalid sort \/ (sort <> None /\ axis_invalid axis)) /\
  (forall e, (nullity_sort df sort axis).2 = Raise e ->
             exists msg, e = ValueError msg).
Proof.
case: (nullity_sortP df sort axis) => [Hs|s Hs Ha Hd|d Hs Hax|d a Hs Hax].
- split=> [|e //]; split=> [[msg //]|[[s [Hs' _ _]]|[Hn _]]] //.
  by rewrite Hs in Hs'.
- split=> [|e [<-]]; last by exists sort_msg.
  split=> [_|_]; last by exists sort_msg.
  by left; exists s.
- split=> [|e [<-]]; last by exists axis_msg.
  split=> [_|_]; last by exists axis_msg.
  by right; rewrite Hs.
- split=> [|e //]; split=> [[msg //]|[[s [Hs' Hna Hnd]]|[_ [Hi Hc]]]].
    by move: Hs'; rewrite Hs => -[Hd]; case: d Hd {Hs} => Hd; [case: Hna|case: Hnd].
  by move: Hi Hc; rewrite Hax /normalized; case: a {Hax}.
Qed.

(** C7. With a valid direction and the axis "rows", one deprecation warning
    is emitted, nothing is raised, and the frame returned is the one the
    axis "index" returns, a call that emits no warning. *)
Theorem sort_rows_alias df (d : direction) :
  exists df' : DataFrame R C V,
    [/\ nullity_sort df (Some (dir_name d)) "rows"
        = ([:: DeprecationWarning rows_msg], Ok (Frame df')),
        nullity_sort df (Some (dir_name d)) "index" = ([::], Ok (Frame df')) &
        size (nullity_sort df (Some (dir_name d)) "rows").1 = 1].
Proof.
exists (take_cols df (dir_perm d (count_index df))).
by rewrite (nullity_sort_valid df d AxRows) (nullity_sort_valid df d AxIndex).
Qed.

End SortClaims.

Section RunArguments.

#[local] Existing Instance stable_np.

(** C4 as stated fails: with no direction and the axis "bogus" the axis is
    none of the two names, yet nothing is raised. *)
Lemma sort_raises_iff_as_stated_fails :
  ~ (raises_ValueError (nullity_sort example_df None "bogus") <->
     direction_invalid None \/ axis_invalid "bogus").
Proof.
move=> [_ H]; have [|msg //] := H.
by right; split.
Qed.

End RunArguments.

(** ** Order of the positions in an arrangement *)

Lemma index_rev (T : eqType) (s : seq T) (x : T) :
  uniq s -> x \in s -> position x (rev s) = size s - (position x s).+1.
Proof.
move=> Hu Hx; have Hi : position x s < size s by rewrite index_mem.
set k := size s - (position x s).+1.
have Hk : k < size s by rewrite /k -subSn // subSS leq_subr.
have E : nth x (rev s) k = x.
  by rewrite nth_rev // /k subnSK // subKn ?nth_index // ltnW.
by rewrite -[X in position X _]E index_uniq ?size_rev ?rev_uniq.
Qed.

(** Reversing an arrangement reverses the order of any two of its
    elements. *)
Lemma position_rev (T : eqType) (s : seq T) (x y : T) :
  uniq s -> x \in s -> y \in s ->
  (position y (rev s) < position x (rev s)) = (position x s < position y s).
Proof.
move=> Hu Hx Hy; rewrite !index_rev // ltn_sub2lE ?ltnS //.
by rewrite index_mem.
Qed.

(** ** Sorting twice *)

Section AxisLemmas.

Context {np : Argsort}.

Variables (R C V : Type).
Implicit Types (df : DataFrame R C V) (a : axis_arg) (ps qs : seq nat).

Lemma axis_counts_take df a ps :
  wf df -> in_range (axis_len df a) ps ->
  axis_counts (axis_take df a ps) a = gather (axis_counts df a) ps.
Proof.
by case: a => Hwf Hr;
   [exact: count_columns_take_rows | exact: count_index_take_cols ..].
Qed.

Lemma axis_take_take df a ps qs :
  wf df -> in_range (axis_len df a) ps -> in_range (size ps) qs ->
  axis_take (axis_take df a ps) a qs = axis_take df a (gather ps qs).
Proof.
by case: a => Hwf Hp Hq;
   [exact: take_rows_take_rows | exact: take_cols_take_cols ..].
Qed.

Lemma wf_axis_take df a ps :
  wf df -> in_range (axis_len df a) ps -> wf (axis_take df a ps).
Proof. by case: a => Hwf Hr; [exact: wf_take_rows | exact: wf_take_cols ..]. Qed.

Lemma gather_flip ps : gather ps (rev (iota 0 (size ps))) = rev ps.
Proof. by rewrite gather_rev gather_iota. Qed.

Lemma in_range_argsort_axis df a :
  in_range (axis_len df a) (argsort (axis_counts df a)).
Proof. by rewrite -size_axis_counts; exact: in_range_argsort. Qed.

(** Ascending, then descending on the result, the counts all different:
    the first arrangement reversed. *)
Lemma sort_asc_then_desc df a :
  wf df -> uniq (axis_counts df a) ->
  let ps := argsort (axis_counts df a) in
  nullity_sort (axis_take df a ps) (Some "descending") (axis_name a)
  = (axis_warnings a, Ok (Frame (axis_take df a (rev ps)))).
Proof.
move=> Hwf Hu ps.
have Hr : in_range (axis_len df a) ps by exact: in_range_argsort_axis.
rewrite (nullity_sort_valid _ Descending a) /= axis_counts_take //.
have Hs : sorted ltn (sort leq (axis_counts df a)).
  by rewrite ltn_sorted_uniq_leq sort_uniq Hu; exact: (sort_sorted leq_total).
rewrite gather_argsort (argsort_sorted_id Hs).
rewrite size_sort -(size_argsort (axis_counts df a)) -/ps.
by rewrite axis_take_take // ?gather_flip // /flipud in_range_rev;
   apply/in_rangeP => i; rewrite mem_iota.
Qed.

(** Descending, then ascending on the result, the counts all different: the
    first arrangement reversed. *)
Lemma sort_desc_then_asc df a :
  wf df -> uniq (axis_counts df a) ->
  let ps := flipud (argsort (axis_counts df a)) in
  nullity_sort (axis_take df a ps) (Some "ascending") (axis_name a)
  = (axis_warnings a, Ok (Frame (axis_take df a (rev ps)))).
Proof.
move=> Hwf Hu ps.
have Hr : in_range (axis_len df a) ps.
  by rewrite /ps /flipud in_range_rev; exact: in_range_argsort_axis.
rewrite (nullity_sort_valid _ Ascending a) /= axis_counts_take //.
have Hs : sorted gtn (rev (sort leq (axis_counts df a))).
  rewrite rev_sorted ltn_sorted_uniq_leq sort_uniq Hu /=.
  exact: (sort_sorted leq_total).
rewrite /ps /flipud gather_rev gather_argsort (argsort_rev_sorted Hs).
rewrite size_rev size_sort -(size_argsort (axis_counts df a)).
rewrite -(size_rev (argsort _)) axis_take_take ?gather_flip //.
by rewrite in_range_rev; apply/in_rangeP => i; rewrite mem_iota.
Qed.

End AxisLemmas.

(** ** The cells of a rearranged frame *)

Section Cells.

Variables (R C : Type) (V : eqType).
Implicit Types (df : DataFrame R C V) (ps : seq nat).

Lemma perm_cells_take_rows df ps :
  wf df -> perm_eq ps (iota 0 (nrows df)) ->
  perm_eq (cells (take_rows df ps)) (cells df).
Proof.
move=> Hwf Hp; apply: perm_flatten; apply: perm_gather.
by rewrite (wf_size_values Hwf).
Qed.

Lemma perm_cells_take_cols df ps :
  wf df -> perm_eq ps (iota 0 (ncols df)) ->
  perm_eq (cells (take_cols df ps)) (cells df).
Proof.
move=> /wf_rows Hrows Hp; rewrite /cells /=.
elim: (values df) Hrows => [|r rs IH] //= /andP [/eqP Hr Hrs].
by apply: perm_cat; [apply: perm_gather; rewrite Hr | exact: IH].
Qed.

Lemma perm_cells_axis_take df a ps :
  wf df -> perm_eq ps (iota 0 (axis_len df a)) ->
  perm_eq (cells (axis_take df a ps)) (cells df).
Proof.
by case: a => Hwf Hp;
   [exact: perm_cells_take_rows | exact: perm_cells_take_cols ..].
Qed.

End Cells.

Section ShapeLemmas.

Variables (R C V : Type).
Implicit Types (df : DataFrame R C V) (ps : seq nat).

Lemma shape_axis_take df a ps :
  perm_eq ps (iota 0 (axis_len df a)) ->
  nrows (axis_take df a ps) = nrows df /\
  ncols (axis_take df a ps) = ncols df.
Proof.
move=> Hp; have Hs : size ps = axis_len df a by rewrite (perm_size Hp) size_iota.
have Hr : in_range (axis_len df a) ps.
  by apply/in_rangeP => i; rewrite (perm_mem Hp) mem_iota.
by case: a Hs Hr {Hp} => /= Hs Hr;
   rewrite ?nrows_take_rows ?ncols_take_cols.
Qed.

End ShapeLemmas.

Section SortPermutation.

Context {np : Argsort}.

Variables (R C V : Type).
Implicit Types (df : DataFrame R C V).

(** C1, amended.  With the axis "columns" the code takes one count of
    non-missing cells per row and rearranges the rows by it, the columns
    staying as they are; with the axis "index" it takes one count per
    column and rearranges the columns, the rows staying as they are.  The
    arrangement is a permutation of the positions along which the counts
    ascend, or descend, as the direction asks. *)
Theorem sort_axis_semantics df (d : direction) :
  (exists ps : seq nat,
     [/\ perm_eq ps (iota 0 (nrows df)),
         size (count_columns df) = nrows df,
         forall i, i < nrows df ->
           nth 0 (count_columns df) i
           = count isSome (nth [::] (values df) i),
         sorted (dir_rel d) [seq nth 0 (count_columns df) i | i <- ps] &
         nullity_sort df (Some (dir_name d)) "columns"
         = ([::], Ok (Frame (mkDF (gather (index df) ps) (columns df)
                                  (gather (values df) ps))))]) /\
  (exists ps : seq nat,
     [/\ perm_eq ps (iota 0 (ncols df)),
         size (count_index df) = ncols df,
         forall j, j < ncols df ->
           nth 0 (count_index df) j
           = count (fun r => isSome (nth None r j)) (values df),
         sorted (dir_rel d) [seq nth 0 (count_index df) j | j <- ps] &
         nullity_sort df (Some (dir_name d)) "index"
         = ([::], Ok (Frame (mkDF (index df) (gather (columns df) ps)
                                  [seq gather r ps | r <- values df])))]).
Proof.
split.
- exists (dir_perm d (count_columns df)); split.
  + by rewrite -size_count_columns; exact: perm_dir_perm.
  + exact: size_count_columns.
  + by move=> i Hi; rewrite (nth_map 0) ?size_iota // nth_iota.
  + exact: dir_perm_sorted.
  + exact: (nullity_sort_valid df d AxColumns).
- exists (dir_perm d (count_index df)); split.
  + by rewrite -size_count_index; exact: perm_dir_perm.
  + exact: size_count_index.
  + by move=> j Hj; rewrite (nth_map 0) ?size_iota // nth_iota.
  + exact: dir_perm_sorted.
  + exact: (nullity_sort_valid df d AxIndex).
Qed.

(** C2, amended.  Along either axis the descending arrangement is the
    ascending one reversed, so any two positions, tied or not, come under
    descending in the reverse of their order under ascending; which of two
    tied positions comes first under ascending is left to argsort.  When no
    two counts are equal, sorting ascending and then descending reverses
    the first arrangement, and so does sorting descending and then
    ascending. *)
Theorem descending_reverses_ascending df (a : axis_arg) :
  [/\ (nullity_sort df (Some "ascending") (axis_name a)).2
      = Ok (Frame (axis_take df a (argsort (axis_counts df a)))) /\
      (nullity_sort df (Some "descending") (axis_name a)).2
      = Ok (Frame (axis_take df a (rev (argsort (axis_counts df a))))),
      forall i j, i < axis_len df a -> j < axis_len df a ->
        (position j (rev (argsort (axis_counts df a)))
         < position i (rev (argsort (axis_counts df a))))
        = (position i (argsort (axis_counts df a))
           < position j (argsort (axis_counts df a))),
      wf df -> uniq (axis_counts df a) ->
        (nullity_sort (axis_take df a (argsort (axis_counts df a)))
                      (Some "descending") (axis_name a)).2
        = Ok (Frame (axis_take df a (rev (argsort (axis_counts df a))))) &
      wf df -> uniq (axis_counts df a) ->
        (nullity_sort (axis_take df a (rev (argsort (axis_counts df a))))
                      (Some "ascending") (axis_name a)).2
        = Ok (Frame (axis_take df a
                       (rev (rev (argsort (axis_counts df a))))))].
Proof.
split.
- by rewrite (nullity_sort_valid df Ascending a)
             (nullity_sort_valid df Descending a).
- move=> i j; rewrite -size_axis_counts => Hi Hj.
  by apply: position_rev; rewrite ?argsort_uniq ?mem_argsort.
- by move=> Hwf Hu; rewrite sort_asc_then_desc.
- by move=> Hwf Hu; rewrite sort_desc_then_asc.
Qed.

End SortPermutation.

Section SortContent.

Context {np : Argsort}.

Variables (R C : Type) (V : eqType).
Implicit Types (df : DataFrame R C V).

(** C8. On a rectangular frame, with a valid direction and axis, the frame
    returned has as many rows and as many columns as the one given and the
    same cells counted with multiplicity: it is the given frame with its
    rows, or its columns, taken along a permutation of their positions. *)
Theorem sort_preserves_content df (d : direction) (a : axis_arg) :
  wf df ->
  exists df' : DataFrame R C V,
    [/\ (nullity_sort df (Some (dir_name d)) (axis_name a)).2
        = Ok (Frame df'),
        nrows df' = nrows df /\ ncols df' = ncols df,
        perm_eq (cells df') (cells df),
        wf df' &
        exists2 ps, perm_eq ps (iota 0 (axis_len df a))
                  & df' = axis_take df a ps].
Proof.
move=> Hwf; set ps := dir_perm d (axis_counts df a).
have Hp : perm_eq ps (iota 0 (axis_len df a)).
  by rewrite -size_axis_counts; exact: perm_dir_perm.
exists (axis_take df a ps); split.
- by rewrite nullity_sort_valid.
- exact: shape_axis_take.
- exact: perm_cells_axis_take.
- apply: wf_axis_take => //.
  by rewrite -size_axis_counts; exact: in_range_dir_perm.
- by exists ps.
Qed.

End SortContent.

Section RunSort.

#[local] Existing Instance stable_np.

(** C1 as stated fails: on a frame without equal counts the axis "columns"
    leaves the columns where they are and moves the rows, and the axis
    "index" does the opposite. *)
Lemma sort_axis_as_stated_fails :
  [/\ nullity_sort distinct_df (Some "ascending") "columns"
      <> ([::], Ok (Frame (take_cols distinct_df
                             (argsort (count_index distinct_df))))),
      nullity_sort distinct_df (Some "ascending") "columns"
      = ([::], Ok (Frame (mkDF [:: 0; 2; 1] [:: "X"; "Y"; "Z"]
                               [:: [:: Some 1; None; None];
                                   [:: Some 5; None; Some 6];
                                   [:: Some 2; Some 3; Some 4]]))),
      nullity_sort distinct_df (Some "ascending") "index"
      <> ([::], Ok (Frame (take_rows distinct_df
                             (argsort (count_columns distinct_df))))) &
      nullity_sort distinct_df (Some "ascending") "index"
      = ([::], Ok (Frame (mkDF [:: 0; 1; 2] [:: "Y"; "Z"; "X"]
                               [:: [:: None; None; Some 1];
                                   [:: Some 3; Some 4; Some 2];
                                   [:: None; Some 6; Some 5]])))].
Proof. by split; vm_compute. Qed.

(** C2 as stated fails on the order of ties.  The columns of [tied_df]
    count 1, 1, 0 and 0 cells.  An argsort that returns the positions 3, 2,
    1, 0 for these counts meets what numpy documents, its default kind of
    sort being free to leave equal values in any order.  With it the
    descending sort returns the columns A, B, C, D: the tied columns A and
    B, and C and D, are in their original order, not in the reverse of
    it. *)
Lemma descending_ties_as_stated_fails :
  [/\ count_index tied_df = [:: 1; 1; 0; 0],
      argsort (Argsort := flipped_np) [:: 1; 1; 0; 0] = [:: 3; 2; 1; 0],
      (nullity_sort (np := flipped_np) tied_df (Some "descending")
         "index").2
      = Ok (Frame (mkDF [:: 0] [:: "A"; "B"; "C"; "D"]
                        [:: [:: Some 1; Some 2; None; None]])) &
      ~ (position 1 (rev (argsort (Argsort := flipped_np)
                            (count_index tied_df)))
         < position 0 (rev (argsort (Argsort := flipped_np)
                              (count_index tied_df))))].
Proof. by split; vm_compute. Qed.

Lemma descending_reverses_ascending_witness :
  [/\ 0 < axis_len distinct_df AxColumns /\
      1 < axis_len distinct_df AxColumns,
      (position 1 (rev (argsort (axis_counts distinct_df AxColumns)))
       < position 0 (rev (argsort (axis_counts distinct_df AxColumns))))
      = (position 0 (argsort (axis_counts distinct_df AxColumns))
         < position 1 (argsort (axis_counts distinct_df AxColumns))),
      wf distinct_df /\ uniq (axis_counts distinct_df AxColumns),
      (nullity_sort
         (axis_take distinct_df AxColumns
            (argsort (axis_counts distinct_df AxColumns)))
         (Some "descending") (axis_name AxColumns)).2
      = Ok (Frame (axis_take distinct_df AxColumns
                     (rev (argsort (axis_counts distinct_df AxColumns))))) &
      (nullity_sort
         (axis_take distinct_df AxColumns
            (rev (argsort (axis_counts distinct_df AxColumns))))
         (Some "ascending") (axis_name AxColumns)).2
      = Ok (Frame (axis_take distinct_df AxColumns
                     (rev (rev (argsort
                                  (axis_counts distinct_df AxColumns))))))].
Proof.
have [_ H2 H3 H4] := descending_reverses_ascending distinct_df AxColumns.
split; [by []|exact: (H2 0 1 (erefl true) (erefl true))|by []
       |exact: (H3 (erefl true) (erefl true))
       |exact: (H4 (erefl true) (erefl true))].
Defined.

Lemma sort_preserves_content_witness :
  wf example_df /\
  exists df' : DataFrame nat string nat,
    [/\ (nullity_sort example_df (Some (dir_name Descending))
           (axis_name AxRows)).2 = Ok (Frame df'),
        nrows df' = nrows example_df /\ ncols df' = ncols example_df,
        perm_eq (cells df') (cells example_df),
        wf df' &
        exists2 ps, perm_eq ps (iota 0 (axis_len example_df AxRows))
                  & df' = axis_take example_df AxRows ps].
Proof.
split; first by [].
exact: (@sort_preserves_content stable_np nat string nat example_df
          Descending AxRows (erefl true)).
Defined.

End RunSort.

(** ** Slices *)

Lemma to_nat_min (n : Z) (len : nat) :
  Z.to_nat (Z.min n (Z.of_nat len)) = minn (Z.to_nat n) len.
Proof.
rewrite /minn; case: ltnP => [/ltP H|/leP H]; lia.
Qed.

Lemma slice_to_pos (T : Type) (s : seq T) (n : Z) :
  (0 <= n)%Z -> slice_to s n = take (Z.to_nat n) s.
Proof.
move=> Hn; rewrite /slice_to /slice_bound.
have -> : (n <? 0)%Z = false by apply/Z.ltb_ge.
rewrite to_nat_min /minn; case: ltnP => // H.
by rewrite take_size take_oversize.
Qed.

Lemma slice_from_neg (T : Type) (s : seq T) (n : Z) :
  (0 < n)%Z -> slice_from s (- n) = drop (size s - Z.to_nat n) s.
Proof.
move=> Hn; rewrite /slice_from /slice_bound.
have -> : (- n <? 0)%Z = true by apply/Z.ltb_lt; lia.
congr (drop _ s); rewrite -minusE; lia.
Qed.

Lemma size_slice_to (T : Type) (s : seq T) (n : Z) :
  (0 <= n)%Z -> size (slice_to s n) = minn (Z.to_nat n) (size s).
Proof. by move=> Hn; rewrite slice_to_pos // size_take_min. Qed.

Lemma size_slice_from (T : Type) (s : seq T) (n : Z) :
  (0 < n)%Z -> size (slice_from s (- n)) = minn (Z.to_nat n) (size s).
Proof.
move=> Hn; rewrite slice_from_neg // size_drop.
rewrite /minn; case: ltnP => H; first by rewrite subKn // ltnW.
by move: H; rewrite -subn_eq0 => /eqP ->; rewrite subn0.
Qed.

(** ** nullity_filter *)

(** Positions that ascend are those of a subsequence. *)
Lemma sorted_ltn_subseq (s t : seq nat) :
  sorted ltn s -> sorted ltn t -> {subset s <= t} -> subseq s t.
Proof.
move=> Hs Ht Hst.
have -> : s = [seq x <- t | x \in s]; last exact: filter_subseq.
apply: (irr_sorted_eq ltn_trans ltnn) => //.
  exact: sorted_filter ltn_trans _ _ Ht.
by move=> x; rewrite mem_filter; case Hx: (x \in s); rewrite //= (Hst x Hx).
Qed.

(** Selecting ascending positions of an ascending sequence. *)
Lemma sorted_ltn_gather (keep ps : seq nat) :
  sorted ltn keep -> sorted ltn ps -> in_range (size keep) ps ->
  sorted ltn (gather keep ps).
Proof.
move=> Hk Hp Hr; rewrite (gather_nat_nth Hr) sorted_map.
apply: (@sub_in_sorted _ [pred i | i < size keep] ltn) Hr Hp => i j Hi Hj.
exact: (sorted_ltn_nth ltn_trans 0 Hk).
Qed.

(** The ascending arrangement cut in two: no count of the first part
    exceeds a count of the second. *)
Lemma argsort_cut {np : Argsort} c (lo hi : seq nat) :
  argsort c = lo ++ hi ->
  forall a b, a \in lo -> b \in hi -> nth 0 c a <= nth 0 c b.
Proof.
move=> E a b Ha Hb; have := @argsort_sorted np c.
rewrite E (sorted_pairwise (@le_c_trans c)) pairwise_cat.
by case/and3P => /allrelP H _ _; exact: H.
Qed.

Section Cap.

Context {np : Argsort}.

(** [c] are the counts of a frame, [keep] the columns a first step kept, and
    [part] the positions, among the kept columns, a slice of their
    ascending arrangement holds. *)
Variables (c keep part rest : seq nat).
Hypothesis keep_sorted : sorted ltn keep.
Hypothesis keep_range : in_range (size c) keep.
Hypothesis part_uniq : uniq part.
Hypothesis part_sub : {subset part <= argsort (gather c keep)}.

Let size_c1 : size (gather c keep) = size keep.
Proof. exact: size_gather. Qed.

Lemma cap_in_range : in_range (size keep) (np_sort part).
Proof.
apply/in_rangeP => b; rewrite mem_sort => /part_sub.
by rewrite mem_argsort size_c1.
Qed.

Lemma cap_mem j :
  (j \in gather keep (np_sort part)) = (j \in [seq nth 0 keep b | b <- part]).
Proof.
rewrite (gather_nat_nth cap_in_range).
by apply: perm_mem; apply: perm_map; rewrite /np_sort perm_sort.
Qed.

Lemma cap_sorted : sorted ltn (gather keep (np_sort part)).
Proof.
apply: sorted_ltn_gather => //; last exact: cap_in_range.
by rewrite ltn_sorted_uniq_leq sort_uniq part_uniq; exact: (sort_sorted leq_total).
Qed.

Lemma cap_subseq : subseq (gather keep (np_sort part)) keep.
Proof.
apply: sorted_ltn_subseq => //; first exact: cap_sorted.
move=> j; rewrite cap_mem => /mapP [b Hb ->]; apply: mem_nth.
by move/part_sub: Hb; rewrite mem_argsort size_c1.
Qed.

Lemma cap_size : size (gather keep (np_sort part)) = size part.
Proof. by rewrite (size_gather cap_in_range) size_sort. Qed.

(** A kept column is in the selection or comes from the rest of the
    arrangement. *)
Lemma cap_rest j :
  perm_eq (argsort (gather c keep)) (part ++ rest) ->
  j \in keep -> j \notin gather keep (np_sort part) ->
  j \in [seq nth 0 keep a | a <- rest].
Proof.
move=> Hp Hj Hn; apply/mapP; exists (position j keep); last by rewrite nth_index.
have : position j keep \in argsort (gather c keep).
  by rewrite mem_argsort size_c1 index_mem.
rewrite (perm_mem Hp) mem_cat => /orP [Hpart|//].
by move: Hn; rewrite cap_mem => /mapP []; exists (position j keep); rewrite ?nth_index.
Qed.

Lemma gather_count_nth a :
  a < size keep -> nth 0 (gather c keep) a = nth 0 c (nth 0 keep a).
Proof. by move=> Ha; rewrite (gather_nat_nth keep_range) (nth_map 0). Qed.

End Cap.

Section CapOrder.

Context {np : Argsort}.

Variables (c keep : seq nat) (k : nat).
Hypothesis keep_sorted : sorted ltn keep.
Hypothesis keep_range : in_range (size c) keep.

Let ps := argsort (gather c keep).

Let arranged a : a \in ps -> a < size keep.
Proof. by rewrite mem_argsort size_gather. Qed.

(** Keeping the end of the arrangement keeps the highest counts. *)
Lemma cap_top_order j x :
  j \in keep -> j \notin gather keep (np_sort (drop k ps)) ->
  x \in gather keep (np_sort (drop k ps)) ->
  nth 0 c j <= nth 0 c x.
Proof.
have Hsub : {subset drop k ps <= ps} by move=> a; exact: mem_drop.
have Hu : uniq (drop k ps) by rewrite drop_uniq // argsort_uniq.
move=> Hj Hn; rewrite (cap_mem keep_range Hsub) => /mapP [b Hb ->].
have Hp : perm_eq ps (drop k ps ++ take k ps).
  by rewrite perm_sym perm_catC cat_take_drop.
have /mapP [a Ha ->] := cap_rest keep_range Hsub Hp Hj Hn.
have Ha' : a < size keep by apply: arranged; exact: mem_take Ha.
have Hb' : b < size keep by apply: arranged; exact: Hsub.
rewrite -(gather_count_nth keep_range Ha') -(gather_count_nth keep_range Hb').
by apply: (@argsort_cut np _ (take k ps) (drop k ps)); rewrite ?cat_take_drop.
Qed.

(** Keeping the start of the arrangement keeps the lowest counts. *)
Lemma cap_bottom_order j x :
  j \in keep -> j \notin gather keep (np_sort (take k ps)) ->
  x \in gather keep (np_sort (take k ps)) ->
  nth 0 c x <= nth 0 c j.
Proof.
have Hsub : {subset take k ps <= ps} by move=> a; exact: mem_take.
have Hu : uniq (take k ps) by rewrite take_uniq // argsort_uniq.
move=> Hj Hn; rewrite (cap_mem keep_range Hsub) => /mapP [b Hb ->].
have Hp : perm_eq ps (take k ps ++ drop k ps) by rewrite cat_take_drop.
have /mapP [a Ha ->] := cap_rest keep_range Hsub Hp Hj Hn.
have Ha' : a < size keep by apply: arranged; exact: mem_drop Ha.
have Hb' : b < size keep by apply: arranged; exact: Hsub.
rewrite -(gather_count_nth keep_range Ha') -(gather_count_nth keep_range Hb').
by apply: (@argsort_cut np _ (take k ps) (drop k ps)); rewrite ?cat_take_drop.
Qed.

End CapOrder.

Section FilterLemmas.

Context {np : Argsort}.

Variables (R C V F : Type).
Context {num : PyNumber F}.
Implicit Types (df : DataFrame R C V) (p : F) (test : F -> bool).

Lemma size_completeness df : size (completeness df) = ncols df.
Proof. by rewrite size_map size_count_index. Qed.

Lemma mask_positions_test df test :
  mask_positions [seq test x | x <- completeness df] = columns_where df test.
Proof.
rewrite /mask_positions /columns_where size_map size_completeness.
apply/eq_in_filter => j; rewrite mem_iota add0n /= => Hj.
rewrite (nth_map (true_divide 0 0)) ?size_completeness //.
by rewrite /completeness (nth_map 0) ?size_count_index.
Qed.

Lemma columns_where_sorted df test : sorted ltn (columns_where df test).
Proof. exact: sorted_filter ltn_trans _ _ (iota_ltn_sorted 0 _). Qed.

Lemma columns_where_range df test :
  in_range (ncols df) (columns_where df test).
Proof. by apply/in_rangeP => j; rewrite mem_filter mem_iota => /andP [_]. Qed.

Lemma kept_sorted df p test : sorted ltn (kept df p test).
Proof.
by rewrite /kept; case: (truthy p);
   [exact: columns_where_sorted | exact: iota_ltn_sorted].
Qed.

Lemma kept_range df p test : in_range (ncols df) (kept df p test).
Proof.
rewrite /kept; case: (truthy p); first exact: columns_where_range.
by apply/in_rangeP => j; rewrite mem_iota.
Qed.

(** The first step: the mask of the test, when [p] is not zero. *)
Lemma filter_mask_step df p test :
  wf df ->
  (if truthy p then iloc_mask df [seq test x | x <- completeness df]
   else Ok df) = Ok (take_cols df (kept df p test)).
Proof.
move=> Hwf; rewrite /kept; case: (truthy p); last by rewrite take_cols_iota.
by rewrite /iloc_mask size_map size_completeness eqxx mask_positions_test.
Qed.

(** The second step, on the frame the first one left. *)
Lemma filter_cap_step df (keep part : seq nat) :
  wf df -> in_range (ncols df) keep ->
  {subset part <= argsort (count_index (take_cols df keep))} ->
  iloc_cols (take_cols df keep) (np_sort part)
  = Ok (take_cols df (gather keep (np_sort part))).
Proof.
move=> Hwf Hk Hsub.
have Hr : in_range (size keep) (np_sort part).
  apply/in_rangeP => b; rewrite mem_sort => /Hsub.
  by rewrite mem_argsort size_count_index ncols_take_cols.
by rewrite /iloc_cols ncols_take_cols // Hr take_cols_take_cols.
Qed.

End FilterLemmas.

Section FilterSpec.

Context {np : Argsort}.

Variables (R C V F : Type).
Context {num : PyNumber F}.
Implicit Types (df : DataFrame R C V) (p : F) (n : Z).

(** What [nullity_filter] computes in the mode "top". *)
Lemma filter_top_spec df p n :
  wf df -> (0 <= n)%Z ->
  exists sel : seq nat,
    [/\ nullity_filter df (Some "top") p n = Ok (take_cols df sel),
        sorted ltn sel,
        subseq sel (kept df p (ge_num^~ p)),
        size sel = (if (n =? 0)%Z then size (kept df p (ge_num^~ p))
                    else minn (Z.to_nat n) (size (kept df p (ge_num^~ p)))) &
        forall j x, j \in kept df p (ge_num^~ p) -> j \notin sel ->
                    x \in sel ->
                    nth 0 (count_index df) j <= nth 0 (count_index df) x].
Proof.
move=> Hwf Hn; set keep := kept df p _.
have Hks : sorted ltn keep by exact: kept_sorted.
have Hkr : in_range (ncols df) keep by exact: kept_range.
rewrite /nullity_filter /= (filter_mask_step _ (ge_num^~ p) Hwf) /= -/keep.
case: (Z.eqb_spec n 0) => [_|Hn0].
  by exists keep; split=> // j x ->.
have Hpos : (0 < n)%Z by lia.
rewrite slice_from_neg // count_index_take_cols //.
set c := count_index df; set ps := argsort (gather c keep).
set k := size ps - Z.to_nat n.
have Hkc : in_range (size c) keep by rewrite size_count_index.
have Hsub : {subset drop k ps <= ps} by move=> a; exact: mem_drop.
have Hu : uniq (drop k ps) by rewrite drop_uniq // argsort_uniq.
exists (gather keep (np_sort (drop k ps))); split.
- by apply: filter_cap_step => //; rewrite count_index_take_cols.
- exact: (cap_sorted Hks Hkc Hu Hsub).
- exact: (cap_subseq Hks Hkc Hu Hsub).
- rewrite (cap_size Hkc Hsub) /k -slice_from_neg // size_slice_from //.
  by rewrite size_argsort size_gather.
- exact: (cap_top_order Hkc).
Qed.

(** What [nullity_filter] computes in the mode "bottom". *)
Lemma filter_bottom_spec df p n :
  wf df -> (0 <= n)%Z ->
  exists sel : seq nat,
    [/\ nullity_filter df (Some "bottom") p n = Ok (take_cols df sel),
        sorted ltn sel,
        subseq sel (kept df p (le_num^~ p)),
        size sel = (if (n =? 0)%Z then size (kept df p (le_num^~ p))
                    else minn (Z.to_nat n) (size (kept df p (le_num^~ p)))) &
        forall j x, j \in kept df p (le_num^~ p) -> j \notin sel ->
                    x \in sel ->
                    nth 0 (count_index df) x <= nth 0 (count_index df) j].
Proof.
move=> Hwf Hn; set keep := kept df p _.
have Hks : sorted ltn keep by exact: kept_sorted.
have Hkr : in_range (ncols df) keep by exact: kept_range.
rewrite /nullity_filter /= (filter_mask_step _ (le_num^~ p) Hwf) /= -/keep.
case: (Z.eqb_spec n 0) => [_|Hn0].
  by exists keep; split=> // j x ->.
rewrite slice_to_pos // count_index_take_cols //.
set c := count_index df; set ps := argsort (gather c keep).
set k := Z.to_nat n.
have Hkc : in_range (size c) keep by rewrite size_count_index.
have Hsub : {subset take k ps <= ps} by move=> a; exact: mem_take.
have Hu : uniq (take k ps) by rewrite take_uniq // argsort_uniq.
exists (gather keep (np_sort (take k ps))); split.
- by apply: filter_cap_step => //; rewrite count_index_take_cols.
- exact: (cap_sorted Hks Hkc Hu Hsub).
- exact: (cap_subseq Hks Hkc Hu Hsub).
- by rewrite (cap_size Hkc Hsub) size_take_min size_argsort size_gather.
- exact: (cap_bottom_order Hkc).
Qed.

End FilterSpec.

Section FilterClaims.

Context {np : Argsort}.

Variables (R C V F : Type).
Context {num : PyNumber F}.
Implicit Types (df : DataFrame R C V) (p : F) (n : Z).

(** C3. On a rectangular frame, in the mode "top" with [p] not zero and [n]
    positive: the first step returns the frame with exactly the columns
    whose count divided by the number of rows is at least [p], in their
    order; the second step runs on that frame and keeps the columns of the
    [n] highest counts, in their order.  The frame returned has the rows of
    the frame given and the columns at the positions [sel]: each of them
    has a ratio of at least [p], there are at most [n] of them, namely [n]
    or all those with such a ratio when these are fewer, and no column with
    such a ratio that was dropped has a higher count than one returned. *)
Theorem filter_top_composes df p n :
  wf df -> truthy p -> (0 < n)%Z ->
  exists (sel : seq nat) (df' : DataFrame R C V),
    [/\ nullity_filter df (Some "top") p 0
        = Ok (mkDF (index df)
                (gather (columns df) (columns_where df (ge_num^~ p)))
                [seq gather r (columns_where df (ge_num^~ p))
                | r <- values df]) /\
        nullity_filter df (Some "top") p n
        = iloc_cols (take_cols df (columns_where df (ge_num^~ p)))
            (np_sort (slice_from
               (argsort (count_index
                  (take_cols df (columns_where df (ge_num^~ p))))) (- n))),
        [/\ nullity_filter df (Some "top") p n = Ok df',
            index df' = index df,
            columns df' = gather (columns df) sel &
            values df' = [seq gather r sel | r <- values df]],
        [/\ sorted ltn sel, subseq sel (columns_where df (ge_num^~ p)) &
            all (fun j => ge_num (ratio df j) p) sel],
        [/\ ncols df' = size sel,
            size sel
            = minn (Z.to_nat n) (size (columns_where df (ge_num^~ p))) &
            (Z.of_nat (ncols df') <= n)%Z] &
        forall j x, j < ncols df -> ge_num (ratio df j) p ->
                    j \notin sel -> x \in sel ->
                    nth 0 (count_index df) j <= nth 0 (count_index df) x].
Proof.
move=> Hwf Hp Hn.
have Hn' : (0 <= n)%Z by lia.
have [sel []] := filter_top_spec p Hwf Hn'.
have -> : (n =? 0)%Z = false by apply/Z.eqb_neq; lia.
rewrite /kept Hp => Hres Hs Hsub Hsize Hord.
have Hr : in_range (ncols df) sel.
  apply/in_rangeP => j /(mem_subseq Hsub).
  by rewrite mem_filter mem_iota => /andP [_].
have Hcols : ncols (take_cols df sel) = size sel by exact: ncols_take_cols.
exists sel, (take_cols df sel); split=> //.
- split.
    by rewrite /nullity_filter /= Hp /iloc_mask size_map size_completeness
               eqxx mask_positions_test.
  rewrite /nullity_filter /= Hp /iloc_mask size_map size_completeness eqxx /=.
  have -> : (n =? 0)%Z = false by apply/Z.eqb_neq; lia.
  by rewrite mask_positions_test.
- split=> //; apply/allP => j Hj.
  by have := mem_subseq Hsub Hj; rewrite mem_filter => /andP [].
- split=> //; rewrite Hcols Hsize.
  have /leP : minn (Z.to_nat n) (size (columns_where df (ge_num^~ p)))
              <= Z.to_nat n by exact: geq_minl.
  lia.
- move=> j x Hj Hge; apply: Hord.
  by rewrite mem_filter Hge mem_iota.
Qed.

(** C6. On a rectangular frame, in the mode "bottom" with [n] not
    negative: the columns returned are, in their order, among those whose
    ratio is at most [p] when [p] is not zero, among all of them otherwise;
    when [n] is not zero there are [n] of them, or all of those when these
    are fewer, and none has a higher count than a column that was dropped.
    On a frame of four rows whose columns A, B, C and D hold 4, 2, 1 and 4
    non-missing cells, with [p] zero and [n] two, the columns returned are
    B and C in this order. *)
Theorem filter_bottom_semantics df p n :
  wf df -> (0 <= n)%Z ->
  (exists sel : seq nat,
     [/\ nullity_filter df (Some "bottom") p n = Ok (take_cols df sel),
         sorted ltn sel /\
         subseq sel (if truthy p then columns_where df (le_num^~ p)
                     else iota 0 (ncols df)),
         truthy p -> all (fun j => le_num (ratio df j) p) sel,
         size sel
         = (if (n =? 0)%Z then size (kept df p (le_num^~ p))
            else minn (Z.to_nat n) (size (kept df p (le_num^~ p)))) &
         forall j x, j \in kept df p (le_num^~ p) -> j \notin sel ->
                     x \in sel ->
                     nth 0 (count_index df) x <= nth 0 (count_index df) j]) /\
  (forall cA cB cC cD : C,
     truthy p = false -> n = 2%Z -> nrows df = 4 ->
     columns df = [:: cA; cB; cC; cD] ->
     count_index df = [:: 4; 2; 1; 4] ->
     nullity_filter df (Some "bottom") p n = Ok (take_cols df [:: 1; 2]) /\
     columns (take_cols df [:: 1; 2]) = [:: cB; cC]).
Proof.
move=> Hwf Hn; split.
- have [sel [Hres Hs Hsub Hsize Hord]] := filter_bottom_spec p Hwf Hn.
  exists sel; split=> //.
  move=> Hp; apply/allP => j Hj.
  have := mem_subseq Hsub Hj.
  by rewrite /kept Hp mem_filter => /andP [].
- move=> cA cB cC cD Hp Hn2 Hrows Hcols Hcounts.
  have [sel [-> Hs Hsub Hsize Hord]] := filter_bottom_spec p Hwf Hn.
  have Hlow : all (fun j => (j \in sel)
                            || all (fun x => nth 0 [:: 4; 2; 1; 4] x
                                             <= nth 0 [:: 4; 2; 1; 4] j) sel)
                  (iota 0 4).
    apply/allP => j Hj; case Hjs: (j \in sel) => //=.
    apply/allP => x Hx; rewrite -Hcounts; apply: Hord => //; last by rewrite Hjs.
    by rewrite /kept Hp /ncols Hcols.
  move: Hsub Hsize; rewrite /kept Hp /ncols Hcols Hn2.
  move=> /subseqP [m Hm Hsel] Hsize.
  have {}Hsize : size sel = 2 by rewrite Hsize.
  have -> : sel = [:: 1; 2].
    move: m Hm Hsel Hsize Hlow => [|b0 [|b1 [|b2 [|b3 [|? ?]]]]] //= _.
    by case: b0; case: b1; case: b2; case: b3 => -> //=.
  by rewrite /take_cols Hcols.
Qed.

(** C9. With a mode that is neither "top" nor "bottom", [None] and any
    other string alike, [nullity_filter] returns the frame it was given and
    raises nothing. *)
Theorem filter_unknown_mode df (mode : option string) p n :
  mode <> Some "top" -> mode <> Some "bottom" ->
  nullity_filter df mode p n = Ok df.
Proof.
case: mode => [s|] // Ht Hb; rewrite /nullity_filter /is_mode.
have /String.eqb_neq -> : s <> "top" by move=> E; apply: Ht; rewrite E.
by have /String.eqb_neq -> : s <> "bottom" by move=> E; apply: Hb; rewrite E.
Qed.

End FilterClaims.

Section RunFilter.

#[local] Existing Instance stable_np.

Lemma filter_top_composes_witness :
  [/\ wf example_df, truthy (Fin (3 # 4)%Q), (0 < 5)%Z &
      exists (sel : seq nat) (df' : DataFrame nat string nat),
        [/\ nullity_filter example_df (Some "top") (Fin (3 # 4)%Q) 5
            = Ok df',
            columns df' = gather (columns example_df) sel,
            all (fun j => ge_num (ratio example_df j) (Fin (3 # 4)%Q)) sel,
            ncols df' = 2 &
            (Z.of_nat (ncols df') <= 5)%Z]].
Proof.
split; [by []|by []|by []|].
have [sel [df' [_ [Hres _ Hcols _] [_ _ Hall] [Hn Hsize Hle] _]]] :=
  @filter_top_composes stable_np nat string nat pyfloat pyfloat_number
    example_df (Fin (3 # 4)%Q) 5%Z (erefl true) (erefl true) (erefl Lt).
by exists sel, df'; split=> //; rewrite Hn Hsize.
Defined.

Lemma filter_bottom_semantics_witness :
  [/\ wf example_df, (0 <= 2)%Z, truthy (Fin 0%Q) = false,
      nrows example_df = 4 &
      nullity_filter example_df (Some "bottom") (Fin 0%Q) 2
      = Ok (take_cols example_df [:: 1; 2]) /\
      columns (take_cols example_df [:: 1; 2]) = [:: "B"; "C"]].
Proof.
split; [by []|by []|by []|by []|].
have Hle : (0 <= 2)%Z by [].
have [_ H] :=
  @filter_bottom_semantics stable_np nat string nat pyfloat pyfloat_number
    example_df (Fin 0%Q) 2%Z (erefl true) Hle.
exact: (H "A" "B" "C" "D" (erefl false) (erefl 2%Z) (erefl 4)
          (erefl _) (erefl _)).
Defined.

Lemma filter_unknown_mode_witness :
  Some "middle" <> Some "top" /\ Some "middle" <> Some "bottom" /\
  nullity_filter example_df (Some "middle") (Fin (1 # 2)%Q) 3
  = Ok example_df.
Proof.
have Ht : Some "middle" <> Some "top" by [].
have Hb : Some "middle" <> Some "bottom" by [].
split; [exact: Ht|split; [exact: Hb|]].
exact: (@filter_unknown_mode stable_np nat string nat pyfloat pyfloat_number
          example_df (Some "middle") (Fin (1 # 2)%Q) 3%Z Ht Hb).
Defined.

End RunFilter.

(** * Further properties of nullity_sort *)

Section SortFurther.

Context {np : Argsort}.

Variables (R C V : Type).
Implicit Types (df : DataFrame R C V) (d : direction) (a : axis_arg).

Lemma axis_take_iota df a :
  wf df -> axis_take df a (iota 0 (axis_len df a)) = df.
Proof. by case: a => Hwf; [exact: take_rows_iota | exact: take_cols_iota ..]. Qed.

Lemma axis_take_rev_iota df a :
  wf df ->
  axis_take df a (rev (iota 0 (axis_len df a)))
  = if a is AxColumns
    then mkDF (rev (index df)) (columns df) (rev (values df))
    else mkDF (index df) (rev (columns df)) [seq rev r | r <- values df].
Proof.
move=> Hwf.
have Hrow : take_rows df (rev (iota 0 (nrows df)))
            = mkDF (rev (index df)) (columns df) (rev (values df)).
  rewrite /take_rows /nrows gather_rev gather_iota.
  by rewrite -[size (index df)]/(nrows df) -(wf_size_values Hwf)
             gather_rev gather_iota.
have Hcol : take_cols df (rev (iota 0 (ncols df)))
            = mkDF (index df) (rev (columns df)) [seq rev r | r <- values df].
  rewrite /take_cols /ncols gather_rev gather_iota; congr (mkDF _ _ _).
  apply: eq_map_all (wf_rows Hwf) _ => r /eqP.
  by rewrite /ncols => <-; rewrite gather_rev gather_iota.
by case: a.
Qed.

Lemma axis_len_take df a (ps : seq nat) :
  in_range (axis_len df a) ps -> axis_len (axis_take df a ps) a = size ps.
Proof. by case: a => /= Hr; rewrite ?nrows_take_rows ?ncols_take_cols. Qed.

(** X1. Whatever the arguments, a call either returns a frame or raises a
    ValueError: the end of the body, which would return [None], is never
    reached, and no position handed to [iloc] is out of bounds. *)
Theorem sort_returns_frame_or_value_error df (sort : option string)
    (axis : string) :
  (exists df', (nullity_sort df sort axis).2 = Ok (Frame df')) \/
  (exists msg, (nullity_sort df sort axis).2 = Raise (ValueError msg)).
Proof.
case: (nullity_sortP df sort axis) => [_|s _ _ _|d _ _|d a _ _].
- by left; exists df.
- by right; exists sort_msg.
- by right; exists axis_msg.
- by left; eexists.
Qed.

(** X2. The direction is checked before the axis: with a direction that is
    none of the two names the error is the one about "sort" and no
    deprecation warning is emitted, also for the axis "rows" and for an
    axis that is no axis.  With a valid direction and an axis that is no
    axis the error is the one about "axis", again without a warning. *)
Theorem sort_error_order df (s axis : string) (d : direction) :
  s <> "ascending" -> s <> "descending" ->
  nullity_sort df (Some s) axis = ([::], Raise (ValueError sort_msg)) /\
  (axis <> "rows" -> axis <> "index" -> axis <> "columns" ->
   nullity_sort df (Some (dir_name d)) axis
   = ([::], Raise (ValueError axis_msg))).
Proof.
move=> Ha Hd; split.
  case: (nullity_sortP df (Some s) axis) => // [d' [Hs] _|d' a [Hs] _].
    by case: d' Hs => Hs; [case: Ha|case: Hd].
  by case: d' Hs => Hs; [case: Ha|case: Hd].
move=> Hr Hi Hc.
case: (nullity_sortP df (Some (dir_name d)) axis) => // [s' [<-]|d' a _ Hax].
  by case: d.
by case: a Hax => Hax; [case: Hc|case: Hi|case: Hr].
Qed.

(** X3. On a rectangular frame the counts of the frame returned, taken
    along the axis that was sorted, are in the order asked for: they ascend
    for "ascending" and descend for "descending". *)
Theorem sort_result_ordered df d a :
  wf df ->
  exists df' : DataFrame R C V,
    (nullity_sort df (Some (dir_name d)) (axis_name a)).2 = Ok (Frame df') /\
    sorted (dir_rel d) (axis_counts df' a).
Proof.
move=> Hwf; exists (axis_take df a (dir_perm d (axis_counts df a))).
rewrite nullity_sort_valid; split=> //.
have Hr : in_range (axis_len df a) (dir_perm d (axis_counts df a)).
  by rewrite -size_axis_counts; exact: in_range_dir_perm.
rewrite axis_counts_take // gather_nat_nth ?size_axis_counts //.
exact: dir_perm_sorted.
Qed.

(** X4. A rectangular frame whose counts strictly ascend along the axis is
    returned as it is by the ascending sort, whatever argsort does with
    equal values. *)
Theorem sort_ascending_fixed df a :
  wf df -> sorted ltn (axis_counts df a) ->
  (nullity_sort df (Some "ascending") (axis_name a)).2 = Ok (Frame df).
Proof.
move=> Hwf Hs; rewrite (nullity_sort_valid df Ascending a) /=.
by rewrite (argsort_sorted_id Hs) size_axis_counts axis_take_iota.
Qed.

(** X5. When no two counts along the axis are equal, sorting ascending is
    idempotent on rectangular frames: sorting the frame it returned returns
    that frame again. *)
Theorem sort_ascending_idempotent df a :
  wf df -> uniq (axis_counts df a) ->
  exists df1 : DataFrame R C V,
    (nullity_sort df (Some "ascending") (axis_name a)).2 = Ok (Frame df1) /\
    (nullity_sort df1 (Some "ascending") (axis_name a)).2 = Ok (Frame df1).
Proof.
move=> Hwf Hu; set ps := argsort (axis_counts df a).
have Hr : in_range (axis_len df a) ps by exact: in_range_argsort_axis.
exists (axis_take df a ps); split.
  by rewrite (nullity_sort_valid df Ascending a).
rewrite (nullity_sort_valid _ Ascending a) /= axis_counts_take //.
have Hs : sorted ltn (sort leq (axis_counts df a)).
  by rewrite ltn_sorted_uniq_leq sort_uniq Hu; exact: (sort_sorted leq_total).
rewrite gather_argsort (argsort_sorted_id Hs) size_sort.
rewrite -(size_argsort (axis_counts df a)) -/ps.
rewrite -(axis_len_take Hr).
by rewrite axis_take_iota //; exact: wf_axis_take.
Qed.

(** X6. On a rectangular frame whose counts strictly ascend along the axis
    the descending sort returns the frame with its rows (axis "columns") or
    its columns (axis "index" and "rows") in reverse order, labels
    included. *)
Theorem sort_descending_of_ascending df a :
  wf df -> sorted ltn (axis_counts df a) ->
  (nullity_sort df (Some "descending") (axis_name a)).2
  = Ok (Frame (if a is AxColumns
               then mkDF (rev (index df)) (columns df) (rev (values df))
               else mkDF (index df) (rev (columns df))
                         [seq rev r | r <- values df])).
Proof.
move=> Hwf Hs; rewrite (nullity_sort_valid df Descending a) /=.
by rewrite (argsort_sorted_id Hs) size_axis_counts /flipud axis_take_rev_iota.
Qed.

(** X7. When no two counts along the axis are equal, sorting descending is
    idempotent on rectangular frames. *)
Theorem sort_descending_idempotent df a :
  wf df -> uniq (axis_counts df a) ->
  exists df1 : DataFrame R C V,
    (nullity_sort df (Some "descending") (axis_name a)).2 = Ok (Frame df1) /\
    (nullity_sort df1 (Some "descending") (axis_name a)).2 = Ok (Frame df1).
Proof.
move=> Hwf Hu; set ps := flipud (argsort (axis_counts df a)).
have Hr : in_range (axis_len df a) ps.
  by rewrite /ps /flipud in_range_rev; exact: in_range_argsort_axis.
exists (axis_take df a ps); split.
  by rewrite (nullity_sort_valid df Descending a).
rewrite (nullity_sort_valid _ Descending a) /= axis_counts_take //.
have Hs : sorted gtn (rev (sort leq (axis_counts df a))).
  rewrite rev_sorted ltn_sorted_uniq_leq sort_uniq Hu /=.
  exact: (sort_sorted leq_total).
rewrite {2}/ps /flipud gather_rev gather_argsort (argsort_rev_sorted Hs) revK.
rewrite size_rev size_sort -(size_argsort (axis_counts df a)).
rewrite -(size_rev (argsort _)) -/(flipud _) -/ps.
rewrite -(axis_len_take Hr).
by rewrite axis_take_iota //; exact: wf_axis_take.
Qed.

End SortFurther.

Section RunSortFurther.

#[local] Existing Instance stable_np.

Lemma sort_error_order_witness :
  [/\ "up" <> "ascending", "up" <> "descending",
      nullity_sort example_df (Some "up") "rows"
      = ([::], Raise (ValueError sort_msg)),
      "bogus" <> "rows" /\ "bogus" <> "index" /\ "bogus" <> "columns" &
      nullity_sort example_df (Some "descending") "bogus"
      = ([::], Raise (ValueError axis_msg))].
Proof.
have Ha : "up" <> "ascending" by [].
have Hd : "up" <> "descending" by [].
have Hr : "bogus" <> "rows" by [].
have Hi : "bogus" <> "index" by [].
have Hc : "bogus" <> "columns" by [].
have [H1 _] :=
  @sort_error_order stable_np _ _ _ example_df "up" "rows" Descending Ha Hd.
have [_ H2] :=
  @sort_error_order stable_np _ _ _ example_df "up" "bogus" Descending Ha Hd.
by split; [exact: Ha|exact: Hd|exact: H1| |exact: (H2 Hr Hi Hc)].
Defined.

Lemma sort_result_ordered_witness :
  wf example_df /\
  exists df' : DataFrame nat string nat,
    (nullity_sort example_df (Some (dir_name Descending))
       (axis_name AxColumns)).2 = Ok (Frame df') /\
    sorted (dir_rel Descending) (axis_counts df' AxColumns).
Proof.
split; first by [].
exact: (@sort_result_ordered stable_np _ _ _ example_df Descending AxColumns
          (erefl true)).
Defined.

Lemma sort_ascending_fixed_witness :
  [/\ wf ascending_df, sorted ltn (axis_counts ascending_df AxColumns) &
      (nullity_sort ascending_df (Some "ascending") (axis_name AxColumns)).2
      = Ok (Frame ascending_df)].
Proof.
split; [by []|by []|].
exact: (@sort_ascending_fixed stable_np _ _ _ ascending_df AxColumns
          (erefl true) (erefl true)).
Defined.

Lemma sort_ascending_idempotent_witness :
  [/\ wf distinct_df, uniq (axis_counts distinct_df AxIndex) &
      exists df1 : DataFrame nat string nat,
        (nullity_sort distinct_df (Some "ascending") (axis_name AxIndex)).2
        = Ok (Frame df1) /\
        (nullity_sort df1 (Some "ascending") (axis_name AxIndex)).2
        = Ok (Frame df1)].
Proof.
split; [by []|by []|].
exact: (@sort_ascending_idempotent stable_np _ _ _ distinct_df AxIndex
          (erefl true) (erefl true)).
Defined.

Lemma sort_descending_of_ascending_witness :
  [/\ wf ascending_df, sorted ltn (axis_counts ascending_df AxColumns) &
      (nullity_sort ascending_df (Some "descending") (axis_name AxColumns)).2
      = Ok (Frame (mkDF [:: 2; 1; 0] [:: "K"; "L"]
                        [:: [:: Some 2; Some 3];
                            [:: Some 1; None];
                            [:: None; None]]))].
Proof.
split; [by []|by []|].
exact: (@sort_descending_of_ascending stable_np _ _ _ ascending_df AxColumns
          (erefl true) (erefl true)).
Defined.

Lemma sort_descending_idempotent_witness :
  [/\ wf distinct_df, uniq (axis_counts distinct_df AxIndex) &
      exists df1 : DataFrame nat string nat,
        (nullity_sort distinct_df (Some "descending") (axis_name AxIndex)).2
        = Ok (Frame df1) /\
        (nullity_sort df1 (Some "descending") (axis_name AxIndex)).2
        = Ok (Frame df1)].
Proof.
split; [by []|by []|].
exact: (@sort_descending_idempotent stable_np _ _ _ distinct_df AxIndex
          (erefl true) (erefl true)).
Defined.

End RunSortFurther.

(** * Further properties of nullity_filter *)

Lemma slice_bound_le (len : nat) (k : Z) : slice_bound len k <= len.
Proof.
apply/leP; rewrite /slice_bound; case: (Z.ltb_spec k 0) => H; lia.
Qed.

Lemma slice_bound_neg (len : nat) (n : Z) :
  (n < 0)%Z -> slice_bound len n = len - Z.to_nat (- n).
Proof.
move=> Hn; rewrite /slice_bound -minusE.
have -> : (n <? 0)%Z = true by apply/Z.ltb_lt.
lia.
Qed.

Lemma slice_bound_opp_neg (len : nat) (n : Z) :
  (n < 0)%Z -> slice_bound len (- n) = minn (Z.to_nat (- n)) len.
Proof.
move=> Hn; rewrite /slice_bound.
have -> : (- n <? 0)%Z = false by apply/Z.ltb_ge; lia.
exact: to_nat_min.
Qed.

Lemma subn_minn (a len : nat) : len - minn a len = len - a.
Proof.
rewrite /minn; case: ltnP => // H.
by rewrite subnn; apply/esym/eqP; rewrite subn_eq0.
Qed.

Lemma subseq_same_size (T : eqType) (s t : seq T) :
  subseq s t -> size s = size t -> s = t.
Proof.
by move=> /size_subseq_leqif [_ H] /eqP; rewrite H => /eqP.
Qed.

Section FilterRun.

Context {np : Argsort}.

Variables (R C V F : Type).
Context {num : PyNumber F}.
Implicit Types (df : DataFrame R C V) (p : F) (n : Z) (keep part : seq nat).

(** The second step for any part of the arrangement of the kept columns. *)
Lemma filter_cap_part df keep part :
  wf df -> sorted ltn keep -> in_range (ncols df) keep ->
  uniq part ->
  {subset part <= argsort (gather (count_index df) keep)} ->
  [/\ iloc_cols (take_cols df keep) (np_sort part)
      = Ok (take_cols df (gather keep (np_sort part))),
      sorted ltn (gather keep (np_sort part)),
      subseq (gather keep (np_sort part)) keep &
      size (gather keep (np_sort part)) = size part].
Proof.
move=> Hwf Hks Hkr Hu Hsub.
have Hkc : in_range (size (count_index df)) keep by rewrite size_count_index.
split.
- by apply: filter_cap_step => //; rewrite count_index_take_cols.
- exact: (cap_sorted Hks Hkc Hu Hsub).
- exact: (cap_subseq Hks Hkc Hu Hsub).
- exact: (cap_size Hkc Hsub).
Qed.

(** The mode "top" on a rectangular frame, for every [p] and [n]. *)
Lemma filter_top_run df p n :
  wf df ->
  nullity_filter df (Some "top") p n
  = (if ~~ (n =? 0)%Z
     then iloc_cols (take_cols df (kept df p (ge_num^~ p)))
            (np_sort (slice_from
               (argsort (gather (count_index df) (kept df p (ge_num^~ p))))
               (- n)))
     else Ok (take_cols df (kept df p (ge_num^~ p)))).
Proof.
move=> Hwf.
rewrite /nullity_filter /= (filter_mask_step _ (ge_num^~ p) Hwf) /=.
by rewrite count_index_take_cols //; exact: kept_range.
Qed.

(** The mode "bottom" on a rectangular frame, for every [p] and [n]. *)
Lemma filter_bottom_run df p n :
  wf df ->
  nullity_filter df (Some "bottom") p n
  = (if ~~ (n =? 0)%Z
     then iloc_cols (take_cols df (kept df p (le_num^~ p)))
            (np_sort (slice_to
               (argsort (gather (count_index df) (kept df p (le_num^~ p))))
               n))
     else Ok (take_cols df (kept df p (le_num^~ p)))).
Proof.
move=> Hwf.
rewrite /nullity_filter /= (filter_mask_step _ (le_num^~ p) Hwf) /=.
by rewrite count_index_take_cols //; exact: kept_range.
Qed.

Lemma mode_cases (mode : option string) :
  [\/ mode = Some "top", mode = Some "bottom" |
      mode <> Some "top" /\ mode <> Some "bottom"].
Proof.
case: mode => [s|]; last by constructor 3.
case: (String.eqb_spec s "top") => [->|Ht]; first by constructor 1.
case: (String.eqb_spec s "bottom") => [->|Hb]; first by constructor 2.
by constructor 3; split=> -[].
Qed.

End FilterRun.

Section FilterFurther.

Context {np : Argsort}.

Variables (R C V F : Type).
Context {num : PyNumber F}.
Implicit Types (df : DataFrame R C V) (p : F) (n : Z).

(** X8. On a rectangular frame [nullity_filter] raises nothing, whatever
    the mode, [p] and [n], a negative [n] included: it returns the frame
    with some of its columns, taken in their original order, the rows and
    their labels as they were, and the frame returned is rectangular. *)
Theorem filter_returns_columns_in_order df (mode : option string) p n :
  wf df ->
  exists sel : seq nat,
    [/\ nullity_filter df mode p n = Ok (take_cols df sel),
        sorted ltn sel,
        in_range (ncols df) sel,
        index (take_cols df sel) = index df &
        wf (take_cols df sel)].
Proof.
move=> Hwf.
have Hfin (keep sel : seq nat) :
    in_range (ncols df) keep -> subseq sel keep ->
    in_range (ncols df) sel /\ wf (take_cols df sel).
  move=> Hkr Hsub.
  have Hr : in_range (ncols df) sel.
    by apply/in_rangeP => j /(mem_subseq Hsub); move/in_rangeP: Hkr; apply.
  by split=> //; exact: wf_take_cols.
have Hpart (keep part : seq nat) :
    sorted ltn keep -> in_range (ncols df) keep -> uniq part ->
    {subset part <= argsort (gather (count_index df) keep)} ->
    exists sel : seq nat,
      [/\ iloc_cols (take_cols df keep) (np_sort part) = Ok (take_cols df sel),
          sorted ltn sel, in_range (ncols df) sel,
          index (take_cols df sel) = index df & wf (take_cols df sel)].
  move=> Hks Hkr Hu Hsub.
  have [Hres Hs Hss _] := filter_cap_part Hwf Hks Hkr Hu Hsub.
  have [Hr Hw] := Hfin _ _ Hkr Hss.
  by exists (gather keep (np_sort part)).
have Hkeep (keep : seq nat) :
    sorted ltn keep -> in_range (ncols df) keep ->
    exists sel : seq nat,
      [/\ Ok (take_cols df keep) = Ok (take_cols df sel),
          sorted ltn sel, in_range (ncols df) sel,
          index (take_cols df sel) = index df & wf (take_cols df sel)].
  move=> Hks Hkr; exists keep; split=> //.
  exact: wf_take_cols.
case: (mode_cases mode) => [->|->|[Ht Hb]].
- rewrite filter_top_run //; case: (~~ _).
    apply: Hpart; [exact: kept_sorted|exact: kept_range| |].
      by rewrite /slice_from drop_uniq // argsort_uniq.
    by move=> x; exact: mem_drop.
  by apply: Hkeep; [exact: kept_sorted|exact: kept_range].
- rewrite filter_bottom_run //; case: (~~ _).
    apply: Hpart; [exact: kept_sorted|exact: kept_range| |].
      by rewrite /slice_to take_uniq // argsort_uniq.
    by move=> x; exact: mem_take.
  by apply: Hkeep; [exact: kept_sorted|exact: kept_range].
- have -> : nullity_filter df mode p n = Ok df.
    case: mode Ht Hb => [s|] // Ht Hb; rewrite /nullity_filter /is_mode.
    have /String.eqb_neq -> : s <> "top" by move=> E; apply: Ht; rewrite E.
    by have /String.eqb_neq -> : s <> "bottom"
      by move=> E; apply: Hb; rewrite E.
  exists (iota 0 (ncols df)); rewrite take_cols_iota //; split=> //.
    exact: iota_ltn_sorted.
  by apply/in_rangeP => j; rewrite mem_iota.
Qed.

(** X9. A negative [n] does not cap: by Python's slices, the mode "top"
    then drops the [-n] columns of lowest count among those the first step
    kept, and the mode "bottom" drops the [-n] of highest count, none being
    left when there are no more than [-n]. *)
Theorem filter_negative_n df p n :
  wf df -> (n < 0)%Z ->
  (exists sel : seq nat,
     [/\ nullity_filter df (Some "top") p n = Ok (take_cols df sel),
         subseq sel (kept df p (ge_num^~ p)),
         size sel = size (kept df p (ge_num^~ p)) - Z.to_nat (- n) &
         forall j x, j \in kept df p (ge_num^~ p) -> j \notin sel ->
                     x \in sel ->
                     nth 0 (count_index df) j <= nth 0 (count_index df) x]) /\
  (exists sel : seq nat,
     [/\ nullity_filter df (Some "bottom") p n = Ok (take_cols df sel),
         subseq sel (kept df p (le_num^~ p)),
         size sel = size (kept df p (le_num^~ p)) - Z.to_nat (- n) &
         forall j x, j \in kept df p (le_num^~ p) -> j \notin sel ->
                     x \in sel ->
                     nth 0 (count_index df) x <= nth 0 (count_index df) j]).
Proof.
move=> Hwf Hn.
have Hn0 : (n =? 0)%Z = false by apply/Z.eqb_neq; lia.
split.
- set keep := kept df p (ge_num^~ p).
  have Hks : sorted ltn keep by exact: kept_sorted.
  have Hkr : in_range (ncols df) keep by exact: kept_range.
  have Hkc : in_range (size (count_index df)) keep by rewrite size_count_index.
  rewrite filter_top_run // Hn0 /= -/keep /slice_from.
  set ps := argsort _; set k := slice_bound _ _.
  have Hu : uniq (drop k ps) by rewrite drop_uniq // argsort_uniq.
  have Hsub : {subset drop k ps <= ps} by move=> x; exact: mem_drop.
  have [Hres _ Hss Hsize] := filter_cap_part Hwf Hks Hkr Hu Hsub.
  exists (gather keep (np_sort (drop k ps))); split=> //.
    rewrite Hsize size_drop /k slice_bound_opp_neg // subn_minn.
    by rewrite size_argsort size_gather.
  exact: (cap_top_order Hkc).
- set keep := kept df p (le_num^~ p).
  have Hks : sorted ltn keep by exact: kept_sorted.
  have Hkr : in_range (ncols df) keep by exact: kept_range.
  have Hkc : in_range (size (count_index df)) keep by rewrite size_count_index.
  rewrite filter_bottom_run // Hn0 /= -/keep /slice_to.
  set ps := argsort _; set k := slice_bound _ _.
  have Hu : uniq (take k ps) by rewrite take_uniq // argsort_uniq.
  have Hsub : {subset take k ps <= ps} by move=> x; exact: mem_take.
  have [Hres _ Hss Hsize] := filter_cap_part Hwf Hks Hkr Hu Hsub.
  exists (gather keep (np_sort (take k ps))); split=> //.
    rewrite Hsize size_takel ?slice_bound_le // /k slice_bound_neg //.
    by rewrite size_argsort size_gather.
  exact: (cap_bottom_order Hkc).
Qed.

(** X10. A cap that the kept columns do not exceed changes nothing: with
    [n] at least their number both modes return the frame the first step
    left, and with [p] zero and [n] at least the number of columns they
    return the frame given. *)
Theorem filter_cap_not_reached df p n :
  wf df ->
  [/\ (Z.of_nat (size (kept df p (ge_num^~ p))) <= n)%Z ->
      nullity_filter df (Some "top") p n
      = Ok (take_cols df (kept df p (ge_num^~ p))),
      (Z.of_nat (size (kept df p (le_num^~ p))) <= n)%Z ->
      nullity_filter df (Some "bottom") p n
      = Ok (take_cols df (kept df p (le_num^~ p))) &
      truthy p = false -> (Z.of_nat (ncols df) <= n)%Z ->
      nullity_filter df (Some "top") p n = Ok df /\
      nullity_filter df (Some "bottom") p n = Ok df].
Proof.
move=> Hwf.
have Hsame (keep sel : seq nat) :
    (Z.of_nat (size keep) <= n)%Z -> subseq sel keep ->
    size sel = (if (n =? 0)%Z then size keep
                else minn (Z.to_nat n) (size keep)) ->
    sel = keep.
  move=> Hle Hss Hsize; apply: subseq_same_size => //.
  rewrite Hsize; case: (n =? 0)%Z => //.
  by rewrite /minn; case: ltnP => // /ltP; lia.
have Htop : (Z.of_nat (size (kept df p (ge_num^~ p))) <= n)%Z ->
    nullity_filter df (Some "top") p n
    = Ok (take_cols df (kept df p (ge_num^~ p))).
  move=> Hle; have Hn : (0 <= n)%Z by lia.
  have [sel [-> _ Hss Hsize _]] := filter_top_spec p Hwf Hn.
  by rewrite (Hsame _ _ Hle Hss Hsize).
have Hbot : (Z.of_nat (size (kept df p (le_num^~ p))) <= n)%Z ->
    nullity_filter df (Some "bottom") p n
    = Ok (take_cols df (kept df p (le_num^~ p))).
  move=> Hle; have Hn : (0 <= n)%Z by lia.
  have [sel [-> _ Hss Hsize _]] := filter_bottom_spec p Hwf Hn.
  by rewrite (Hsame _ _ Hle Hss Hsize).
split=> // Hp Hle.
by rewrite Htop ?Hbot /kept Hp ?size_iota // take_cols_iota.
Qed.

(** X11. The two steps chain: filtering by [p] alone and then, on the frame
    returned, by [n] alone (a zero in the place of [p]) gives what one call
    with both gives, in every mode and on every frame. *)
Theorem filter_steps_compose df (mode : option string) p (zero : F) n :
  truthy zero = false ->
  bind (nullity_filter df mode p 0)
       (fun df1 => nullity_filter df1 mode zero n)
  = nullity_filter df mode p n.
Proof.
move=> Hz; rewrite /nullity_filter.
case: (is_mode mode "top") => /=.
  by case: (truthy p); rewrite /= ?Hz //; case: (iloc_mask _ _) => //= df1;
     rewrite Hz.
case: (is_mode mode "bottom") => //=.
by case: (truthy p); rewrite /= ?Hz //; case: (iloc_mask _ _) => //= df1;
   rewrite Hz.
Qed.

End FilterFurther.

(** ** With the arithmetic of floats *)

Section FilterFloat.

Context {np : Argsort}.

Variables (R C V : Type).
Implicit Types (df : DataFrame R C V) (p : pyfloat) (n : Z).

Lemma nth_zeros (T : Type) (s : seq T) (j : nat) :
  nth 0 [seq 0 | _ <- s] j = 0.
Proof. by elim: s j => [|x s IH] [|j] //=. Qed.

Lemma count_index_le df j :
  wf df -> nth 0 (count_index df) j <= nrows df.
Proof.
move=> Hwf; rewrite -(wf_size_values Hwf).
case: (ltnP j (ncols df)) => Hj; last by rewrite nth_default ?size_count_index.
by rewrite (nth_map 0) ?size_iota // count_size.
Qed.

Lemma ratio_ge_one df j :
  wf df -> 0 < nrows df ->
  ge_num (ratio df j) (Fin 1) = (nth 0 (count_index df) j == nrows df).
Proof.
move=> Hwf Hpos; have := count_index_le j Hwf.
rewrite /ratio; case: (nrows df) Hpos => // k _.
set c := nth 0 _ j => /leP Hc.
have -> : ge_num (true_divide c k.+1) (Fin 1)
          = (1 * Z.pos (Pos.of_nat k.+1) <=? Z.of_nat c * 1)%Z by [].
rewrite -Pos.of_nat_succ Zpos_P_of_succ_nat.
by apply/idP/eqP => [/Z.leb_le H|->]; [|apply/Z.leb_le]; lia.
Qed.

(** X12. On a rectangular frame without rows every ratio is 0/0, a nan that
    no comparison accepts: with [p] not zero the modes "top" and "bottom"
    drop every column, whatever [n]. *)
Theorem filter_no_rows_drops_all df (mode : option string) p n :
  wf df -> nrows df = 0 -> truthy p ->
  mode = Some "top" \/ mode = Some "bottom" ->
  nullity_filter df mode p n = Ok (mkDF [::] [::] [::]).
Proof.
case: df => ix cs vs; rewrite /wf /nrows /= => /andP [/eqP Hvs _] Hix Hp.
move/size0nil: (Hix) => Eix; move: Hvs; rewrite Hix => /size0nil Evs.
rewrite {ix Hix}Eix {vs}Evs.
have Hnone (test : pyfloat -> bool) :
    test NaN = false ->
    columns_where (mkDF ([::] : seq R) cs ([::] : seq (seq (option V)))) test
    = [::].
  move=> Ht; rewrite /columns_where /ratio /count_index /nrows /=.
  set s := iota 0 _; transitivity (filter pred0 s); last exact: filter_pred0.
  by apply: eq_filter => j /=; rewrite nth_zeros.
have Enil : argsort [::] = [::] by exact: (size0nil (size_argsort [::])).
case=> ->; rewrite /nullity_filter /= Hp /iloc_mask size_map
                   size_completeness eqxx mask_positions_test Hnone /=.
- by rewrite /pyfloat_ge; case: p {Hp}.
- by case: (n =? 0)%Z => //=; rewrite /count_index /= Enil.
- by [].
- by case: (n =? 0)%Z => //=; rewrite /count_index /= Enil.
Qed.

(** X13. On a rectangular frame with at least one row, the mode "top" with
    [p] one keeps exactly the columns without a missing cell, those whose
    count is the number of rows, in their order. *)
Theorem filter_top_one_keeps_complete df :
  wf df -> 0 < nrows df ->
  nullity_filter df (Some "top") (Fin 1) 0
  = Ok (take_cols df [seq j <- iota 0 (ncols df)
                     | nth 0 (count_index df) j == nrows df]).
Proof.
move=> Hwf Hpos; rewrite filter_top_run //= /kept /= /columns_where.
congr (Ok (take_cols df _)); apply: eq_filter => j.
exact: ratio_ge_one.
Qed.

End FilterFloat.

Section RunFilterFurther.

#[local] Existing Instance stable_np.

Lemma filter_returns_columns_in_order_witness :
  wf example_df /\
  exists sel : seq nat,
    [/\ nullity_filter example_df (Some "top") (Fin (1 # 2)%Q) (-1)
        = Ok (take_cols example_df sel),
        sorted ltn sel,
        in_range (ncols example_df) sel,
        index (take_cols example_df sel) = index example_df &
        wf (take_cols example_df sel)].
Proof.
split; first by [].
exact: (@filter_returns_columns_in_order stable_np _ _ _ _ pyfloat_number example_df
          (Some "top") (Fin (1 # 2)%Q) (-1)%Z (erefl true)).
Defined.

Lemma filter_negative_n_witness :
  [/\ wf example_df, (-1 < 0)%Z &
      exists sel : seq nat,
        [/\ nullity_filter example_df (Some "top") (Fin 0%Q) (-1)
            = Ok (take_cols example_df sel) &
            size sel = 3]].
Proof.
split; [by []|by []|].
have [[sel [Hres _ Hsize _]] _] :=
  @filter_negative_n stable_np _ _ _ _ pyfloat_number example_df (Fin 0%Q) (-1)%Z
    (erefl true) (erefl Lt).
by exists sel; split.
Defined.

Lemma filter_cap_not_reached_witness :
  [/\ wf example_df, truthy (Fin 0%Q) = false,
      (Z.of_nat (ncols example_df) <= 4)%Z &
      nullity_filter example_df (Some "top") (Fin 0%Q) 4 = Ok example_df /\
      nullity_filter example_df (Some "bottom") (Fin 0%Q) 4 = Ok example_df].
Proof.
have Hle : (Z.of_nat (ncols example_df) <= 4)%Z by [].
split; [by []|by []|exact: Hle|].
have [_ _ H] :=
  @filter_cap_not_reached stable_np _ _ _ _ pyfloat_number example_df (Fin 0%Q) 4%Z
    (erefl true).
exact: (H (erefl false) Hle).
Defined.

Lemma filter_steps_compose_witness :
  truthy (Fin 0%Q) = false /\
  bind (nullity_filter example_df (Some "top") (Fin (3 # 4)%Q) 0)
       (fun df1 => nullity_filter df1 (Some "top") (Fin 0%Q) 1)
  = nullity_filter example_df (Some "top") (Fin (3 # 4)%Q) 1.
Proof.
split; first by [].
exact: (@filter_steps_compose stable_np _ _ _ _ pyfloat_number example_df (Some "top")
          (Fin (3 # 4)%Q) (Fin 0%Q) 1%Z (erefl false)).
Defined.

Lemma filter_no_rows_drops_all_witness :
  [/\ wf no_rows_df, nrows no_rows_df = 0, truthy (Fin (1 # 2)%Q) &
      nullity_filter no_rows_df (Some "bottom") (Fin (1 # 2)%Q) 0
      = Ok (mkDF [::] [::] [::])].
Proof.
split; [by []|by []|by []|].
exact: (@filter_no_rows_drops_all stable_np _ _ _ no_rows_df (Some "bottom")
          (Fin (1 # 2)%Q) 0%Z (erefl true) (erefl 0) (erefl true)
          (or_intror (erefl _))).
Defined.

Lemma filter_top_one_keeps_complete_witness :
  [/\ wf example_df, 0 < nrows example_df &
      nullity_filter example_df (Some "top") (Fin 1) 0
      = Ok (take_cols example_df
              [seq j <- iota 0 (ncols example_df)
              | nth 0 (count_index example_df) j == nrows example_df])].
Proof.
split; [by []|by []|].
exact: (@filter_top_one_keeps_complete stable_np _ _ _ example_df
          (erefl true) (erefl true)).
Defined.

End RunFilterFurther.
